(** * Secret rotation: the four-step rotation state machine of
    [src/secret-rotation.ts], embedded as programs over the store commands
    they send, and verified against a reference secret store. *)

From Stdlib Require Import Ascii.
From stdpp Require Import base strings list gmap.

(** ** JavaScript values the code manipulates *)

(** A thrown [Error]: the code inspects [name] and builds [message]. *)
Record JsError := { err_name : string; err_message : string }.

Definition Error (message : string) : JsError :=
  {| err_name := "Error"; err_message := message |}.

Definition TypeError (message : string) : JsError :=
  {| err_name := "TypeError"; err_message := message |}.

(** A plain object used as a dictionary.  The list is in the order in which
    [for ... in] and [Object.keys] enumerate the own keys. *)
Abbreviation JsObject V := (list (string * V)) (only parsing).

Fixpoint js_get {V} (o : JsObject V) (key : string) : option V :=
  match o with
  | [] => None
  | (k, v) :: rest => if bool_decide (k = key) then Some v else js_get rest key
  end.

Definition Object_keys {V} (o : JsObject V) : list string := o.*1.

(** [Array.prototype.includes] on an array of strings. *)
Definition includes (xs : list string) (x : string) : bool :=
  bool_decide (x ∈ xs).

(** Property names every plain object inherits from [Object.prototype]; the
    [in] operator answers [true] for them as well as for own keys. *)
Definition Object_prototype_keys : list string :=
  [ "constructor"; "__defineGetter__"; "__defineSetter__"; "hasOwnProperty";
    "__lookupGetter__"; "__lookupSetter__"; "isPrototypeOf";
    "propertyIsEnumerable"; "toString"; "valueOf"; "__proto__";
    "toLocaleString" ].

Definition js_in {V} (key : string) (o : JsObject V) : bool :=
  includes (Object_keys o) key || includes Object_prototype_keys key.

(** Interpolation of a possibly missing string inside a template literal. *)
Definition show (s : option string) : string :=
  match s with Some x => x | None => "undefined" end.

(** A string between double quotes, as it appears inside a message. *)
Definition quoted (s : string) : string :=
  String "034"%char (s +:+ String "034"%char EmptyString).

(** Truthiness of an optional boolean and of an optional string. *)
Definition truthy_bool (b : option bool) : bool :=
  match b with Some true => true | _ => false end.

Definition truthy_string (s : option string) : bool :=
  match s with
  | Some x => negb (bool_decide (x = EmptyString))
  | None => false
  end.

(** ** Requests, arguments and store responses *)

Record SecretsManagerRotationEvent := {
  SecretId : string;
  ClientRequestToken : string;
  Step : string;
}.

(** [StepCommandArgs]; the [serviceClient] field is the one store the
    program's commands are sent to. *)
Record StepCommandArgs := { arn : string; token : string }.

Record DescribeSecretResponse := {
  Name : option string;
  RotationEnabled : option bool;
  VersionIdsToStages : option (JsObject (list string));
}.

Record GetSecretValueResponse := {
  ValueName : option string;
  VersionId : option string;
  SecretString : option string;
}.

(** ** Commands awaited by the code

    The four store commands, and the calls to the three abstract methods a
    subclass supplies.  [DescribeSecretCommand_undefined] is
    [new DescribeSecretCommand({ SecretId: undefined })], the describe a
    request object without a [SecretId] field leads to. *)
Inductive Command : Type -> Type :=
| DescribeSecretCommand (secretId : string) : Command DescribeSecretResponse
| DescribeSecretCommand_undefined : Command DescribeSecretResponse
| GetSecretValueCommand (secretId : string) (versionId : option string)
    (versionStage : string) : Command GetSecretValueResponse
| PutSecretValueCommand (secretId clientRequestToken secretString : string)
    (versionStages : list string) : Command unit
| UpdateSecretVersionStageCommand
    (secretId versionStage moveToVersionId removeFromVersionId : string)
    : Command unit
| GenerateSecretCall (args : StepCommandArgs) : Command string
| SetSecretCall (args : StepCommandArgs) : Command unit
| TestSecretCall (args : StepCommandArgs) : Command unit.

(** ** Programs

    An async method is a tree: it returns, throws, logs, or awaits a command
    and continues with the command's result or with the error it rejected
    with. *)
Inductive Prog (A : Type) : Type :=
| Return (a : A)
| Throw (e : JsError)
| ConsoleLog (msg : string) (k : Prog A)
| Await {X : Type} (c : Command X) (k : JsError + X -> Prog A).

Arguments Return {A} a.
Arguments Throw {A} e.
Arguments ConsoleLog {A} msg k.
Arguments Await {A X} c k.

Fixpoint bind {A B} (p : Prog A) (f : A -> Prog B) : Prog B :=
  match p with
  | Return a => f a
  | Throw e => Throw e
  | ConsoleLog msg k => ConsoleLog msg (bind k f)
  | Await c k => Await c (fun r => bind (k r) f)
  end.

(** [await client.send(c)]: a rejection is rethrown. *)
Definition send {X} (c : Command X) : Prog X :=
  Await c (fun r => match r with inl e => Throw e | inr x => Return x end).

Definition console_log (msg : string) : Prog unit := ConsoleLog msg (Return tt).

(** [try { body } catch (err) { handler err }]. *)
Fixpoint try_catch {A} (body : Prog A) (handler : JsError -> Prog A) : Prog A :=
  match body with
  | Return a => Return a
  | Throw e => handler e
  | ConsoleLog msg k => ConsoleLog msg (try_catch k handler)
  | Await c k => Await c (fun r => try_catch (k r) handler)
  end.

Notation "x <- p ;; q" := (bind p (fun x => q))
  (at level 100, p at next level, q at level 200, right associativity).
Notation "p ;;; q" := (bind p (fun _ => q))
  (at level 100, q at level 200, right associativity).

(** ** The rotation class *)

Definition generateSecret (args : StepCommandArgs) : Prog string :=
  send (GenerateSecretCall args).

Definition setSecret (args : StepCommandArgs) : Prog unit :=
  send (SetSecretCall args).

Definition testSecret (args : StepCommandArgs) : Prog unit :=
  send (TestSecretCall args).

(** The errors the code throws, under the names the specification gives them. *)
Definition RotationDisabled (arn : string) : JsError :=
  Error ("Secret " +:+ arn +:+ " is not enabled for rotation").

Definition UnknownVersion (arn token : string) : JsError :=
  Error ("Secret version " +:+ token +:+ " has no stage for rotation of secret "
         +:+ arn +:+ ".").

Definition UnknownVersionKey (arn token : string) : JsError :=
  Error ("Secret Version " +:+ token +:+ " has no stage for rotation of secret "
         +:+ arn).

Definition NotPending (arn token : string) : JsError :=
  Error ("Secret version " +:+ token
         +:+ " not set as AWSPENDING for rotation of secret " +:+ arn +:+ ".").

Definition NoCurrentSecret : JsError := Error "No current secret".

Definition MissingMetadata : JsError := Error "No VersionIdsToStages".

Definition NoCurrentVersionFound : JsError :=
  Error "No matching version found in metadata.".

Definition UnknownStep (step : string) : JsError :=
  TypeError ("this[step] is not a function").

Definition ResourceNotFoundException : string := "ResourceNotFoundException".

(** The [catch] block of [createSecret]. *)
Definition createSecret_catch (args : StepCommandArgs)
    (current_secret : GetSecretValueResponse) (err : JsError) : Prog unit :=
  if negb (bool_decide (err_name err = ResourceNotFoundException)) then
    Throw err
  else
    console_log ("secret " +:+ show (ValueName current_secret)
      +:+ " didn't exist in AWSPENDING. Generating new secret for AWSPENDING stage.") ;;;
    new_secret <- generateSecret args ;;
    send (PutSecretValueCommand (arn args) (token args) new_secret ["AWSPENDING"]) ;;;
    console_log ("Successfully created AWSPENDING for secret "
      +:+ show (ValueName current_secret) +:+ ".").

(** The [try] block of [createSecret]. *)
Definition createSecret_try (args : StepCommandArgs) : Prog unit :=
  pending_secret <-
    send (GetSecretValueCommand (arn args) (Some (token args)) "AWSPENDING") ;;
  console_log ("Successfully retrieved AWSPENDING secret for "
    +:+ show (ValueName pending_secret) +:+ ", no further operation needed.").

Definition createSecret (args : StepCommandArgs) : Prog unit :=
  console_log "createSecret: start" ;;;
  current_secret <- send (GetSecretValueCommand (arn args) None "AWSCURRENT") ;;
  if negb (truthy_string (SecretString current_secret)) then
    Throw NoCurrentSecret
  else
    console_log ("Successfully retrieved AWSCURRENT secret for "
      +:+ show (ValueName current_secret)) ;;;
    try_catch (createSecret_try args) (createSecret_catch args current_secret) ;;;
    console_log "createSecret: complete".

(** How the [for ... in] loop of [finishSecret] ends: by the [return] inside
    it, or by falling out (at its end or through [break]) with the value of
    [current_version]. *)
Inductive LoopExit :=
| ReturnedEarly (version : string)
| LoopDone (current_version : string).

Fixpoint finishSecret_loop (stages : JsObject (list string))
    (keys : list string) (token current_version : string) : LoopExit :=
  match keys with
  | [] => LoopDone current_version
  | version :: rest =>
      if includes (default [] (js_get stages version)) "AWSCURRENT" then
        if bool_decide (version = token) then ReturnedEarly version
        else LoopDone version
      else finishSecret_loop stages rest token current_version
  end.

Definition finishSecret (args : StepCommandArgs) : Prog unit :=
  console_log "finishSecret: start" ;;;
  metadata <- send (DescribeSecretCommand (arn args)) ;;
  let current_version := "None" in
  match VersionIdsToStages metadata with
  | None => Throw MissingMetadata
  | Some stages =>
      match finishSecret_loop stages (Object_keys stages) (token args)
              current_version with
      | ReturnedEarly version =>
          console_log ("Version " +:+ version
            +:+ " already marked as AWSCURRENT for " +:+ show (Name metadata)
            +:+ ", no further operation needed.")
      | LoopDone current_version =>
          if bool_decide (current_version = "None") then
            Throw NoCurrentVersionFound
          else
            send (UpdateSecretVersionStageCommand (arn args) "AWSCURRENT"
                    (token args) current_version) ;;;
            console_log ("Successfully set AWSCURRENT stage for secret "
              +:+ show (Name metadata) +:+ ".") ;;;
            console_log "finishSecret: complete"
      end
  end.

(** [doRotate] called as a member by the dispatcher itself (step
    [doRotate]): what it receives as its event is the argument object of a
    phase, [{ serviceClient, arn, token }], so [event.SecretId],
    [event.ClientRequestToken] and [event.Step] are all [undefined].  The
    describe is sent without a secret id; interpolated into a message
    [undefined] reads as that word; [undefined in versions] asks for the key
    of that name; and [Object.keys(versions).includes(undefined)] is false
    whatever the keys, so the second membership test always throws and the
    step is never looked up again. *)
Definition doRotate_reentered : Prog unit :=
  metadata <- send DescribeSecretCommand_undefined ;;
  if negb (truthy_bool (RotationEnabled metadata)) then
    Throw (RotationDisabled "undefined")
  else
    let versions := default [] (VersionIdsToStages metadata) in
    if negb (js_in "undefined" versions) then
      Throw (UnknownVersion "undefined" "undefined")
    else Throw (UnknownVersionKey "undefined" "undefined").

(** The functions every object inherits from [Object.prototype], called with
    the one argument object of a phase.  Eight of them just return a value;
    [__defineGetter__] and [__defineSetter__] throw for want of a function as
    second argument.  [__proto__] is an object, not a function, and is no
    callable member. *)
Definition Object_prototype_member (step : string)
    : option (StepCommandArgs -> Prog unit) :=
  if includes [ "toString"; "toLocaleString"; "valueOf"; "hasOwnProperty";
                "isPrototypeOf"; "propertyIsEnumerable"; "__lookupGetter__";
                "__lookupSetter__" ] step then
    Some (fun _ => Return tt)
  else if includes [ "__defineGetter__"; "__defineSetter__" ] step then
    Some (fun _ =>
            Throw (TypeError ("Object.prototype." +:+ step
                              +:+ ": Expecting function")))
  else None.

(** [this[step]]: the member of the rotation object named [step], when it is
    callable.  The class body declares [doRotate], the four phases and
    [generateSecret]; [constructor] is the class itself, which cannot be
    called without [new]; [inherited] stands for the further members a
    subclass declares under names of its own; the rest comes from
    [Object.prototype]. *)
Definition this_member
    (inherited : string -> option (StepCommandArgs -> Prog unit))
    (step : string) : option (StepCommandArgs -> Prog unit) :=
  if bool_decide (step = "createSecret") then Some createSecret
  else if bool_decide (step = "setSecret") then Some setSecret
  else if bool_decide (step = "testSecret") then Some testSecret
  else if bool_decide (step = "finishSecret") then Some finishSecret
  else if bool_decide (step = "generateSecret") then
    Some (fun args => generateSecret args ;;; Return tt)
  else if bool_decide (step = "doRotate") then Some (fun _ => doRotate_reentered)
  else if bool_decide (step = "constructor") then
    Some (fun _ =>
            Throw (TypeError "Class constructor cannot be invoked without 'new'"))
  else
    match inherited step with
    | Some method => Some method
    | None => Object_prototype_member step
    end.

(** The dispatcher.  Building the client from the environment is
    configuration and has no counterpart here: the commands go to the store
    the program is run against. *)
Definition doRotate
    (inherited : string -> option (StepCommandArgs -> Prog unit))
    (event : SecretsManagerRotationEvent) : Prog unit :=
  let arn := SecretId event in
  let token := ClientRequestToken event in
  let step := Step event in
  metadata <- send (DescribeSecretCommand arn) ;;
  if negb (truthy_bool (RotationEnabled metadata)) then
    Throw (RotationDisabled arn)
  else
    let versions := default [] (VersionIdsToStages metadata) in
    if negb (js_in token versions) then Throw (UnknownVersion arn token)
    else if negb (includes (Object_keys versions) token) then
      Throw (UnknownVersionKey arn token)
    else if includes (default [] (js_get versions token)) "AWSCURRENT" then
      console_log ("Secret Version " +:+ token
        +:+ " is already in " +:+ quoted "AWSCURRENT" +:+ " stage.")
    else if negb (includes (default [] (js_get versions token)) "AWSPENDING") then
      Throw (NotPending arn token)
    else
      match this_member inherited step with
      | Some method => method {| arn := arn; token := token |}
      | None => Throw (UnknownStep step)
      end.

(** ** Running a program against a store *)

(** What a run leaves behind: every log line, and every command awaited
    together with what it resolved or rejected with. *)
Inductive Event :=
| EvLog (msg : string)
| EvCall {X : Type} (c : Command X) (r : JsError + X).

(** A store (and downstream service) answers each command from its state. *)
Definition Handler (S : Type) : Type :=
  forall X, Command X -> S -> S * (JsError + X).

Record Outcome (S A : Type) := {
  final : S;
  trace : list Event;
  result : JsError + A;
}.

Arguments final {S A} o.
Arguments trace {S A} o.
Arguments result {S A} o.

Fixpoint run {S A} (h : Handler S) (p : Prog A) (s : S) : Outcome S A :=
  match p with
  | Return a => {| final := s; trace := []; result := inr a |}
  | Throw e => {| final := s; trace := []; result := inl e |}
  | ConsoleLog msg k =>
      let o := run h k s in
      {| final := final o; trace := EvLog msg :: trace o; result := result o |}
  | Await c k =>
      let sr := h _ c s in
      let o := run h (k sr.2) sr.1 in
      {| final := final o; trace := EvCall c sr.2 :: trace o;
         result := result o |}
  end.

(** *** What a trace shows *)

(** The two commands that change the store. *)
Inductive StoreWrite :=
| WritePut (secretId clientRequestToken secretString : string)
    (versionStages : list string)
| WriteMove (secretId versionStage moveToVersionId removeFromVersionId : string).

Definition write_of {X} (c : Command X) : option StoreWrite :=
  match c with
  | PutSecretValueCommand a t v l => Some (WritePut a t v l)
  | UpdateSecretVersionStageCommand a l t f => Some (WriteMove a l t f)
  | _ => None
  end.

Definition event_write (ev : Event) : option StoreWrite :=
  match ev with
  | EvLog _ => None
  | EvCall c _ => write_of c
  end.

(** The writes a run issued, in order, whether the store accepted them or not. *)
Definition writes (tr : list Event) : list StoreWrite := omap event_write tr.

Definition event_applied_write (ev : Event) : option StoreWrite :=
  match ev with
  | EvCall c (inr _) => write_of c
  | _ => None
  end.

(** The writes the store accepted. *)
Definition applied_writes (tr : list Event) : list StoreWrite :=
  omap event_applied_write tr.

Definition is_move (w : StoreWrite) : bool :=
  match w with WriteMove _ _ _ _ => true | WritePut _ _ _ _ => false end.

Definition downstream_of {X} (c : Command X) : option (string * StepCommandArgs) :=
  match c with
  | GenerateSecretCall args => Some ("generateSecret", args)
  | SetSecretCall args => Some ("setSecret", args)
  | TestSecretCall args => Some ("testSecret", args)
  | _ => None
  end.

Definition event_downstream (ev : Event) : option (string * StepCommandArgs) :=
  match ev with
  | EvLog _ => None
  | EvCall c _ => downstream_of c
  end.

(** The calls a run made to the subclass's methods. *)
Definition downstream_calls (tr : list Event) : list (string * StepCommandArgs) :=
  omap event_downstream tr.

Definition generate_calls (tr : list Event) : list (string * StepCommandArgs) :=
  filter (fun call => call.1 = "generateSecret") (downstream_calls tr).




(** ** The reference store *)

Inductive SecretData :=
| StringData (s : string)
| BinaryData.

(** A version: its stage labels and, once a value has been put, its data. *)
Record Version := { stages : list string; data : option SecretData }.

Record Secret := {
  secret_name : string;
  rotation_enabled : option bool;
  versions : JsObject Version;
}.

Definition set_versions (s : Secret) (vs : JsObject Version) : Secret :=
  {| secret_name := secret_name s; rotation_enabled := rotation_enabled s;
     versions := vs |}.

Definition js_alter {V} (key : string) (f : V -> V) (o : JsObject V)
    : JsObject V :=
  (fun kv : string * V => if bool_decide (kv.1 = key) then (kv.1, f kv.2) else kv)
    <$> o.

Definition add_label (label : string) (v : Version) : Version :=
  {| stages := if includes (stages v) label then stages v
               else stages v ++ [label];
     data := data v |}.

Definition remove_label (label : string) (v : Version) : Version :=
  {| stages := filter (fun l => l ≠ label) (stages v); data := data v |}.

Definition store_error (name : string) : JsError :=
  {| err_name := name; err_message := name |}.

Definition NotFound : JsError := store_error ResourceNotFoundException.

Definition stage_map (vs : JsObject Version) : JsObject (list string) :=
  (fun kv : string * Version => (kv.1, stages kv.2)) <$> vs.

(** Modelled from the spec: [describeSecret] of the remote secret store
    (section 6), an external service with no source in the repository. *)
Definition describeSecret (st : gmap string Secret) (secretId : string)
    : JsError + DescribeSecretResponse :=
  match st !! secretId with
  | None => inl NotFound
  | Some s =>
      inr {| Name := Some (secret_name s);
             RotationEnabled := rotation_enabled s;
             VersionIdsToStages := Some (stage_map (versions s)) |}
  end.

Fixpoint first_staged (label : string) (vs : JsObject Version)
    : option (string * Version) :=
  match vs with
  | [] => None
  | (k, v) :: rest =>
      if includes (stages v) label then Some (k, v) else first_staged label rest
  end.

(** The version a selector [{versionId?, stageLabel}] matches. *)
Definition select_version (vs : JsObject Version) (versionId : option string)
    (label : string) : option (string * Version) :=
  match versionId with
  | Some vid =>
      match js_get vs vid with
      | Some v => if includes (stages v) label then Some (vid, v) else None
      | None => None
      end
  | None => first_staged label vs
  end.

(** Modelled from the spec: [getSecretValue] of the remote secret store
    (section 6); it fails with not-found when no version matches the selector
    or the matching version holds no value yet. *)
Definition getSecretValue (st : gmap string Secret) (secretId : string)
    (versionId : option string) (label : string)
    : JsError + GetSecretValueResponse :=
  match st !! secretId with
  | None => inl NotFound
  | Some s =>
      match select_version (versions s) versionId label with
      | None => inl NotFound
      | Some (vid, v) =>
          match data v with
          | None => inl NotFound
          | Some d =>
              inr {| ValueName := Some (secret_name s);
                     VersionId := Some vid;
                     SecretString :=
                       match d with
                       | StringData x => Some x
                       | BinaryData => None
                       end |}
          end
      end
  end.

(** Modelled from the spec: [putSecretValue] of the remote secret store
    (section 6), a conditional create keyed by the version id: it is rejected
    once the version holds a value. *)
Definition putSecretValue (st : gmap string Secret)
    (secretId versionId value : string) (labels : list string)
    : gmap string Secret * (JsError + unit) :=
  match st !! secretId with
  | None => (st, inl NotFound)
  | Some s =>
      match js_get (versions s) versionId with
      | None =>
          (<[secretId :=
               set_versions s
                 (versions s ++
                  [(versionId,
                    {| stages := stages (foldr add_label
                                           {| stages := []; data := None |}
                                           labels);
                       data := Some (StringData value) |})])]> st,
           inr tt)
      | Some v =>
          match data v with
          | Some _ => (st, inl (store_error "ResourceExistsException"))
          | None =>
              (<[secretId :=
                   set_versions s
                     (js_alter versionId
                        (fun v => {| stages := stages (foldr add_label v labels);
                                     data := Some (StringData value) |})
                        (versions s))]> st,
               inr tt)
          end
      end
  end.

(** Modelled from the spec: [moveStageVersion] of the remote secret store
    (section 6), one atomic relabeling: [label] leaves [fromVersionId] and is
    attached to [toVersionId]. *)
Definition moveStageVersion (st : gmap string Secret)
    (secretId label toVersionId fromVersionId : string)
    : gmap string Secret * (JsError + unit) :=
  match st !! secretId with
  | None => (st, inl NotFound)
  | Some s =>
      match js_get (versions s) toVersionId, js_get (versions s) fromVersionId with
      | Some _, Some vf =>
          if includes (stages vf) label then
            (<[secretId :=
                 set_versions s
                   (js_alter toVersionId (add_label label)
                      (js_alter fromVersionId (remove_label label)
                         (versions s)))]> st,
             inr tt)
          else (st, inl (store_error "InvalidParameterException"))
      | _, _ => (st, inl NotFound)
      end
  end.

(** The downstream service behind the three abstract methods: what each call
    answers.  Successive [generateSecret] calls may answer differently.  The
    service is a collaborator of its own: its calls do not write to the
    store. *)
Record Downstream := {
  generated : nat -> JsError + string;
  set_outcome : JsError + unit;
  test_outcome : JsError + unit;
}.

Record World := {
  secrets : gmap string Secret;
  generate_count : nat;
}.

Definition set_secrets (w : World) (st : gmap string Secret) : World :=
  {| secrets := st; generate_count := generate_count w |}.

(** The reference handler: the store above, and the downstream service.  A
    describe that names no secret finds none. *)
Definition store (d : Downstream) : Handler World :=
  fun X c w =>
    match c in Command X return World * (JsError + X) with
    | DescribeSecretCommand a => (w, describeSecret (secrets w) a)
    | DescribeSecretCommand_undefined => (w, inl NotFound)
    | GetSecretValueCommand a vid l => (w, getSecretValue (secrets w) a vid l)
    | PutSecretValueCommand a t v ls =>
        let r := putSecretValue (secrets w) a t v ls in (set_secrets w r.1, r.2)
    | UpdateSecretVersionStageCommand a l t f =>
        let r := moveStageVersion (secrets w) a l t f in
        (set_secrets w r.1, r.2)
    | GenerateSecretCall _ =>
        ({| secrets := secrets w; generate_count := S (generate_count w) |},
         generated d (generate_count w))
    | SetSecretCall _ => (w, set_outcome d)
    | TestSecretCall _ => (w, test_outcome d)
    end.

(** Versions carrying [label], in enumeration order. *)
Definition holders (label : string) (vs : JsObject Version) : list string :=
  (filter (fun kv : string * Version => label ∈ stages kv.2) vs).*1.

(** The store's own invariant: version ids are distinct and at most one
    version is staged current. *)
Definition wf_secret (s : Secret) : Prop :=
  NoDup (Object_keys (versions s)) /\
  length (holders "AWSCURRENT" (versions s)) ≤ 1.

Definition wf_store (st : gmap string Secret) : Prop :=
  forall a s, st !! a = Some s -> wf_secret s.

(** ** A concrete store for examples *)

Definition db_app : Secret :=
  {| secret_name := "db/app";
     rotation_enabled := Some true;
     versions :=
       [ ("v1", {| stages := ["AWSCURRENT"]; data := Some (StringData "old-pw") |});
         ("v2", {| stages := ["AWSPENDING"]; data := None |}) ] |}.

Definition example_world : World :=
  {| secrets := {[ "arn:db/app" := db_app ]}; generate_count := 0 |}.

Definition example_downstream : Downstream :=
  {| generated := fun n => inr (if n is 0 then "new-pw" else "newer-pw");
     set_outcome := inr tt;
     test_outcome := inr tt |}.

Definition no_inherited : string -> option (StepCommandArgs -> Prog unit) :=
  fun _ => None.

Definition example_args : StepCommandArgs :=
  {| arn := "arn:db/app"; token := "v2" |}.

(** ** Pieces of the two fixed phases, run against a store *)

(** The run of the [catch] block, for an error the pending read rejected
    with. *)
Definition run_catch {S} (h : Handler S) (args : StepCommandArgs)
    (cur : GetSecretValueResponse) (e : JsError) (s : S) : Outcome S unit :=
  run h (createSecret_catch args cur e ;;; console_log "createSecret: complete") s.

(** The run of the stage move and of the two log lines after it. *)
Definition run_move {S} (h : Handler S) (args : StepCommandArgs)
    (md : DescribeSecretResponse) (current_version : string) (s : S)
    : Outcome S unit :=
  let move := UpdateSecretVersionStageCommand (arn args) "AWSCURRENT"
                (token args) current_version in
  let r := h _ move s in
  {| final := r.1;
     trace :=
       EvCall move r.2 ::
       match r.2 with
       | inl _ => []
       | inr _ =>
           [ EvLog ("Successfully set AWSCURRENT stage for secret "
                    +:+ show (Name md) +:+ ".");
             EvLog "finishSecret: complete" ]
       end;
     result := match r.2 with inl e => inl e | inr _ => inr tt end |}.

(** [wf_secret] can be decided by evaluation. *)
#[global] Instance wf_secret_dec sec : Decision (wf_secret sec).
Proof. unfold wf_secret. apply _. Defined.

(** ** More concrete stores *)

(** Rotation finished, and rotation switched off. *)
Definition db_app_promoted : Secret :=
  {| secret_name := "db/app";
     rotation_enabled := Some true;
     versions :=
       [ ("v1", {| stages := ["AWSPREVIOUS"]; data := Some (StringData "old-pw") |});
         ("v2", {| stages := ["AWSPENDING"; "AWSCURRENT"];
                   data := Some (StringData "new-pw") |}) ] |}.

Definition promoted_world : World :=
  {| secrets := {[ "arn:db/app" := db_app_promoted ]}; generate_count := 1 |}.

Definition db_app_disabled : Secret :=
  {| secret_name := "db/app";
     rotation_enabled := Some false;
     versions :=
       [ ("v0", {| stages := ["AWSPREVIOUS"]; data := Some (StringData "older-pw") |});
         ("v1", {| stages := ["AWSCURRENT"]; data := Some (StringData "old-pw") |}) ] |}.

Definition disabled_world : World :=
  {| secrets := {[ "arn:db/app" := db_app_disabled ]}; generate_count := 0 |}.

Definition request (tok step : string) : SecretsManagerRotationEvent :=
  {| SecretId := "arn:db/app"; ClientRequestToken := tok; Step := step |}.

Definition phases : list string :=
  ["createSecret"; "setSecret"; "testSecret"; "finishSecret"].

Definition db_app_binary : Secret :=
  {| secret_name := "db/app";
     rotation_enabled := Some true;
     versions :=
       [ ("v1", {| stages := ["AWSCURRENT"]; data := Some BinaryData |});
         ("v2", {| stages := ["AWSPENDING"]; data := None |}) ] |}.

Definition db_app_empty : Secret :=
  {| secret_name := "db/app";
     rotation_enabled := Some true;
     versions :=
       [ ("v1", {| stages := ["AWSCURRENT"];
                   data := Some (StringData EmptyString) |});
         ("v2", {| stages := ["AWSPENDING"]; data := None |}) ] |}.

Definition world_of (s : Secret) : World :=
  {| secrets := {[ "arn:db/app" := s ]}; generate_count := 0 |}.

Definition db_app_no_current : Secret :=
  {| secret_name := "db/app";
     rotation_enabled := Some true;
     versions :=
       [ ("v1", {| stages := ["AWSPREVIOUS"]; data := Some (StringData "old-pw") |});
         ("v2", {| stages := ["AWSPENDING"]; data := Some (StringData "new-pw") |}) ] |}.

Definition db_app_tested : Secret :=
  {| secret_name := "db/app";
     rotation_enabled := Some true;
     versions :=
       [ ("v1", {| stages := ["AWSCURRENT"]; data := Some (StringData "old-pw") |});
         ("v2", {| stages := ["AWSPENDING"]; data := Some (StringData "new-pw") |}) ] |}.

Definition audit_secret : Secret :=
  {| secret_name := "audit/key";
     rotation_enabled := None;
     versions :=
       [ ("a1", {| stages := ["AWSCURRENT"]; data := Some (StringData "k") |}) ] |}.

Definition two_secret_world : World :=
  {| secrets := <[ "arn:audit/key" := audit_secret ]> {[ "arn:db/app" := db_app ]};
     generate_count := 0 |}.

(** ** Outcomes and stores used by the further properties *)

(** An outcome with one more event in front of its trace. *)
Definition prepend_event {S A} (ev : Event) (o : Outcome S A) : Outcome S A :=
  {| final := final o; trace := ev :: trace o; result := result o |}.

(** The request of a rotation event, as the dispatcher hands it to a phase. *)
Definition args_of (event : SecretsManagerRotationEvent) : StepCommandArgs :=
  {| arn := SecretId event; token := ClientRequestToken event |}.

Definition db_app_unstaged : Secret :=
  {| secret_name := "db/app";
     rotation_enabled := None;
     versions :=
       [ ("v1", {| stages := ["AWSCURRENT"]; data := Some (StringData "old-pw") |}) ] |}.

Definition failing_downstream : Downstream :=
  {| generated := fun _ => inl (Error "generator unavailable");
     set_outcome := inl (Error "cannot set password");
     test_outcome := inl (Error "login refused") |}.

Definition db_app_pending_empty : Secret :=
  {| secret_name := "db/app";
     rotation_enabled := Some true;
     versions :=
       [ ("v1", {| stages := ["AWSCURRENT"]; data := Some (StringData "old-pw") |});
         ("v2", {| stages := ["AWSPENDING"];
                   data := Some (StringData EmptyString) |}) ] |}.

(** A store that lists two versions as current, and one whose current
    version is named like the marker of [finishSecret]. *)
Definition db_app_two_current : Secret :=
  {| secret_name := "db/app";
     rotation_enabled := Some true;
     versions :=
       [ ("v0", {| stages := ["AWSCURRENT"]; data := Some (StringData "older-pw") |});
         ("v1", {| stages := ["AWSCURRENT"]; data := Some (StringData "old-pw") |});
         ("v2", {| stages := ["AWSPENDING"]; data := Some (StringData "new-pw") |}) ] |}.

Definition db_app_none_current : Secret :=
  {| secret_name := "db/app";
     rotation_enabled := Some true;
     versions :=
       [ ("None", {| stages := ["AWSCURRENT"]; data := Some (StringData "old-pw") |});
         ("v2", {| stages := ["AWSPENDING"]; data := Some (StringData "new-pw") |}) ] |}.

(** What the put of [createSecret] makes of the version it fills in. *)
Definition filled (value : string) (v : Version) : Version :=
  {| stages := stages (foldr add_label v ["AWSPENDING"]);
     data := Some (StringData value) |}.

(** One step of a rotation, delivered to the dispatcher. *)
Definition deliver (d : Downstream)
    (inherited : string -> option (StepCommandArgs -> Prog unit))
    (secretId tok step : string) (w : World) : Outcome World unit :=
  run (store d)
    (doRotate inherited
       {| SecretId := secretId; ClientRequestToken := tok; Step := step |}) w.

(** A request for a version the store has never heard of. *)
Definition unknown_token_args : StepCommandArgs :=
  {| arn := "arn:db/app"; token := "v7" |}.

(** ** Basic facts about objects and runs *)

Section JsObjectFacts.
Context {V : Type}.
Implicit Types (o : JsObject V) (k : string).

Lemma js_get_Some_elem o k v : js_get o k = Some v -> (k, v) ∈ o.
Proof.
  induction o as [|[k' v'] o IH]; simpl; [done|].
  case_bool_decide as Hk.
  - intros [= ->]. subst. left.
  - intros Hget. right. auto.
Qed.

Lemma js_get_Some_key o k v : js_get o k = Some v -> k ∈ Object_keys o.
Proof.
  intros Hget. apply js_get_Some_elem in Hget.
  unfold Object_keys. apply list_elem_of_fmap. by exists (k, v).
Qed.

Lemma js_get_None o k : k ∉ Object_keys o -> js_get o k = None.
Proof.
  induction o as [|[k' v'] o IH]; simpl; [done|].
  intros Hk. apply not_elem_of_cons in Hk as [Hne Hk].
  rewrite bool_decide_eq_false_2 by done. auto.
Qed.

Lemma js_get_NoDup o k v :
  NoDup (Object_keys o) -> (k, v) ∈ o -> js_get o k = Some v.
Proof.
  induction o as [|[k' v'] o IH]; simpl.
  - intros _ Hin. by apply elem_of_nil in Hin.
  - intros Hnd Hin. apply NoDup_cons in Hnd as [Hfresh Hnd].
    apply elem_of_cons in Hin as [[= -> ->]|Hin].
    + by rewrite bool_decide_eq_true_2.
    + rewrite bool_decide_eq_false_2; [by apply IH|].
      intros ->. apply Hfresh. apply list_elem_of_fmap. by exists (k, v).
Qed.

Lemma js_in_get o k v : js_get o k = Some v -> js_in k o = true.
Proof.
  intros Hget. unfold js_in, includes.
  rewrite bool_decide_eq_true_2; [done|]. by eapply js_get_Some_key.
Qed.
End JsObjectFacts.

Lemma includes_true xs x : includes xs x = true <-> x ∈ xs.
Proof. unfold includes. apply bool_decide_eq_true. Qed.

Lemma includes_false xs x : includes xs x = false <-> x ∉ xs.
Proof. unfold includes. apply bool_decide_eq_false. Qed.

(** A mapping in which no version is staged current: the loop of
    [finishSecret] falls out with [current_version] untouched. *)
Lemma finishSecret_loop_none (m : JsObject (list string)) tok cv :
  (forall k ls, (k, ls) ∈ m -> "AWSCURRENT" ∉ ls) ->
  forall keys, finishSecret_loop m keys tok cv = LoopDone cv.
Proof.
  intros Hnone keys. induction keys as [|k keys IH]; simpl; [done|].
  destruct (js_get m k) as [ls|] eqn:Hget; simpl.
  - apply js_get_Some_elem, Hnone in Hget.
    apply includes_false in Hget. by rewrite Hget.
  - apply IH.
Qed.

(** ** The dispatcher *)

Section Dispatcher.
Context {S : Type} (h : Handler S).
Context (inherited : string -> option (StepCommandArgs -> Prog unit)).

(** The outcome of [doRotate] once the metadata read has answered. *)
Lemma doRotate_after_describe event s md :
  (h _ (DescribeSecretCommand (SecretId event)) s).2 = inr md ->
  run h (doRotate inherited event) s =
  let s1 := (h _ (DescribeSecretCommand (SecretId event)) s).1 in
  let rest :=
    run h
      (let arn := SecretId event in
       let token := ClientRequestToken event in
       if negb (truthy_bool (RotationEnabled md)) then
         Throw (RotationDisabled arn)
       else
         let versions := default [] (VersionIdsToStages md) in
         if negb (js_in token versions) then Throw (UnknownVersion arn token)
         else if negb (includes (Object_keys versions) token) then
           Throw (UnknownVersionKey arn token)
         else if includes (default [] (js_get versions token)) "AWSCURRENT" then
           console_log ("Secret Version " +:+ token +:+ " is already in "
                        +:+ quoted "AWSCURRENT" +:+ " stage.")
         else if negb (includes (default [] (js_get versions token))
                         "AWSPENDING") then
           Throw (NotPending arn token)
         else
           match this_member inherited (Step event) with
           | Some method => method {| arn := arn; token := token |}
           | None => Throw (UnknownStep (Step event))
           end) s1 in
  {| final := final rest;
     trace := EvCall (DescribeSecretCommand (SecretId event)) (inr md)
              :: trace rest;
     result := result rest |}.
Proof.
  intros Hmd. unfold doRotate, send. cbn [bind run].
  rewrite Hmd. reflexivity.
Qed.
End Dispatcher.

(** A step that names no member is none of the four phases. *)
Lemma this_member_None_not_phase inherited step :
  this_member inherited step = None -> step ∉ phases.
Proof.
  unfold this_member, phases. intros Hm Hin.
  repeat (apply elem_of_cons in Hin as [->|Hin]; [by vm_compute in Hm|]).
  by apply elem_of_nil in Hin.
Qed.

(** The checks of [doRotate] that a request passes when rotation is enabled
    and its version has an entry in the stage mapping. *)
Ltac validate Hmd Hen Hvs Hget :=
  rewrite (doRotate_after_describe _ _ _ _ _ Hmd); cbv zeta;
  rewrite Hen, Hvs; cbn [truthy_bool negb default from_option id];
  rewrite (js_in_get _ _ _ Hget); cbn [negb];
  rewrite (proj2 (includes_true _ _) (js_get_Some_key _ _ _ Hget));
  rewrite Hget; cbn [negb default from_option id].

(** C3, as stated, fails: a version already staged current on a secret whose
    rotation is switched off is refused, not answered with a successful
    no-op. *)
Lemma doRotate_current_rotation_disabled :
  (exists labels,
     js_get (stage_map (versions db_app_disabled)) "v1" = Some labels /\
     "AWSCURRENT" ∈ labels) /\
  result (run (store example_downstream)
            (doRotate no_inherited (request "v1" "finishSecret")) disabled_world)
  = inl (RotationDisabled "arn:db/app").
Proof.
  split; [|reflexivity].
  exists ["AWSCURRENT"]. split; [reflexivity|]. left.
Qed.

(** C3 (amended): on a secret with rotation enabled, a request whose version
    already carries the current stage is answered successfully as a no-op,
    whatever the step: the run consists of the metadata read and one log line,
    so no phase handler runs, no method of the subclass is called and no
    write is sent to the store. *)
Theorem doRotate_current_noop {S} (h : Handler S) inherited event s md
    versions labels :
  (h _ (DescribeSecretCommand (SecretId event)) s).2 = inr md ->
  RotationEnabled md = Some true ->
  VersionIdsToStages md = Some versions ->
  js_get versions (ClientRequestToken event) = Some labels ->
  "AWSCURRENT" ∈ labels ->
  let o := run h (doRotate inherited event) s in
  result o = inr tt /\
  trace o =
    [ EvCall (DescribeSecretCommand (SecretId event)) (inr md);
      EvLog ("Secret Version " +:+ ClientRequestToken event
             +:+ " is already in " +:+ quoted "AWSCURRENT" +:+ " stage.") ] /\
  final o = (h _ (DescribeSecretCommand (SecretId event)) s).1 /\
  writes (trace o) = [] /\
  downstream_calls (trace o) = [].
Proof.
  intros Hmd Hen Hvs Hget Hcur o. subst o.
  validate Hmd Hen Hvs Hget.
  rewrite (proj2 (includes_true _ _) Hcur).
  repeat split; reflexivity.
Qed.

Lemma doRotate_current_noop_witness :
  result (run (store example_downstream)
            (doRotate no_inherited (request "v2" "setSecret")) promoted_world)
  = inr tt.
Proof.
  refine (proj1 (doRotate_current_noop (store example_downstream) no_inherited
                   (request "v2" "setSecret") promoted_world
                   {| Name := Some "db/app"; RotationEnabled := Some true;
                      VersionIdsToStages :=
                        Some (stage_map (versions db_app_promoted)) |}
                   (stage_map (versions db_app_promoted))
                   ["AWSPENDING"; "AWSCURRENT"] _ _ _ _ _));
    try reflexivity.
  right. left.
Defined.

(** C7, as stated, fails: on a secret whose rotation is switched off, a
    version staged neither current nor pending is refused with
    [RotationDisabled], not with [NotPending]. *)
Lemma doRotate_previous_rotation_disabled :
  js_get (stage_map (versions db_app_disabled)) "v0" = Some ["AWSPREVIOUS"] /\
  result (run (store example_downstream)
            (doRotate no_inherited (request "v0" "setSecret")) disabled_world)
  = inl (RotationDisabled "arn:db/app") /\
  RotationDisabled "arn:db/app" <> NotPending "arn:db/app" "v0".
Proof. repeat split; done. Qed.

(** C7 (amended): on a secret with rotation enabled, a request whose version
    is present in the stage mapping with neither the current nor the pending
    label is rejected with [NotPending] right after the metadata read: no
    phase handler runs and nothing is written. *)
Theorem doRotate_not_pending {S} (h : Handler S) inherited event s md
    versions labels :
  (h _ (DescribeSecretCommand (SecretId event)) s).2 = inr md ->
  RotationEnabled md = Some true ->
  VersionIdsToStages md = Some versions ->
  js_get versions (ClientRequestToken event) = Some labels ->
  "AWSCURRENT" ∉ labels ->
  "AWSPENDING" ∉ labels ->
  let o := run h (doRotate inherited event) s in
  result o = inl (NotPending (SecretId event) (ClientRequestToken event)) /\
  trace o = [ EvCall (DescribeSecretCommand (SecretId event)) (inr md) ] /\
  final o = (h _ (DescribeSecretCommand (SecretId event)) s).1 /\
  writes (trace o) = [] /\
  downstream_calls (trace o) = [].
Proof.
  intros Hmd Hen Hvs Hget Hcur Hpen o. subst o.
  validate Hmd Hen Hvs Hget.
  rewrite (proj2 (includes_false _ _) Hcur), (proj2 (includes_false _ _) Hpen).
  repeat split; reflexivity.
Qed.

Lemma doRotate_not_pending_witness :
  result (run (store example_downstream)
            (doRotate no_inherited (request "v1" "finishSecret")) promoted_world)
  = inl (NotPending "arn:db/app" "v1").
Proof.
  refine (proj1 (doRotate_not_pending (store example_downstream) no_inherited
                   (request "v1" "finishSecret") promoted_world
                   {| Name := Some "db/app"; RotationEnabled := Some true;
                      VersionIdsToStages :=
                        Some (stage_map (versions db_app_promoted)) |}
                   (stage_map (versions db_app_promoted))
                   ["AWSPREVIOUS"] _ _ _ _ _ _));
    try reflexivity.
  - intros Hin. apply elem_of_cons in Hin as [[=]|Hin]. by apply elem_of_nil in Hin.
  - intros Hin. apply elem_of_cons in Hin as [[=]|Hin]. by apply elem_of_nil in Hin.
Defined.

(** C8, as stated, fails: a step that is none of the four phases, asked for a
    version that is already current, is answered successfully. *)
Lemma doRotate_unknown_step_current :
  ("rotateSecret" ∉ phases) /\
  result (run (store example_downstream)
            (doRotate no_inherited (request "v2" "rotateSecret")) promoted_world)
  = inr tt.
Proof.
  split; [|reflexivity].
  apply (this_member_None_not_phase no_inherited). reflexivity.
Qed.

(** A step that names another member of the class is simply called:
    [generateSecret] runs, and the dispatcher returns. *)
Lemma doRotate_generateSecret_step :
  let o := run (store example_downstream)
             (doRotate no_inherited (request "v2" "generateSecret"))
             example_world in
  result o = inr tt /\
  downstream_calls (trace o) = [("generateSecret", example_args)] /\
  writes (trace o) = [].
Proof. repeat split; reflexivity. Qed.

(** C8 (amended): on a secret with rotation enabled and a version staged
    pending and not current, a step that names no callable member of the
    rotation object (hence none of the four phases) makes the dispatcher fail
    with [UnknownStep], the [TypeError] of the call, right after the metadata
    read. *)
Theorem doRotate_unknown_step {S} (h : Handler S) inherited event s md
    versions labels :
  (h _ (DescribeSecretCommand (SecretId event)) s).2 = inr md ->
  RotationEnabled md = Some true ->
  VersionIdsToStages md = Some versions ->
  js_get versions (ClientRequestToken event) = Some labels ->
  "AWSCURRENT" ∉ labels ->
  "AWSPENDING" ∈ labels ->
  this_member inherited (Step event) = None ->
  let o := run h (doRotate inherited event) s in
  (Step event ∉ phases) /\
  result o = inl (UnknownStep (Step event)) /\
  trace o = [ EvCall (DescribeSecretCommand (SecretId event)) (inr md) ] /\
  final o = (h _ (DescribeSecretCommand (SecretId event)) s).1.
Proof.
  intros Hmd Hen Hvs Hget Hcur Hpen Hmem o. subst o.
  split; [by eapply this_member_None_not_phase|].
  validate Hmd Hen Hvs Hget.
  rewrite (proj2 (includes_false _ _) Hcur), (proj2 (includes_true _ _) Hpen).
  cbn [negb]. rewrite Hmem.
  repeat split; reflexivity.
Qed.

Lemma doRotate_unknown_step_witness :
  result (run (store example_downstream)
            (doRotate no_inherited (request "v2" "rotateSecret")) example_world)
  = inl (UnknownStep "rotateSecret").
Proof.
  refine (proj1 (proj2 (doRotate_unknown_step (store example_downstream)
                   no_inherited (request "v2" "rotateSecret") example_world
                   {| Name := Some "db/app"; RotationEnabled := Some true;
                      VersionIdsToStages := Some (stage_map (versions db_app)) |}
                   (stage_map (versions db_app))
                   ["AWSPENDING"] _ _ _ _ _ _ _)));
    try reflexivity.
  - intros Hin. apply elem_of_cons in Hin as [[=]|Hin]. by apply elem_of_nil in Hin.
  - left.
Defined.

(** ** createSecret *)

Section CreateSecret.
Context {S : Type} (h : Handler S).
Implicit Types (args : StepCommandArgs) (s : S).

(** The outcome of [createSecret] once the read of the current value has
    answered with a non-empty string. *)
Lemma createSecret_after_current args s cur :
  (h _ (GetSecretValueCommand (arn args) None "AWSCURRENT") s).2 = inr cur ->
  truthy_string (SecretString cur) = true ->
  run h (createSecret args) s =
  let s1 := (h _ (GetSecretValueCommand (arn args) None "AWSCURRENT") s).1 in
  let pending := GetSecretValueCommand (arn args) (Some (token args)) "AWSPENDING" in
  let rest :=
    match (h _ pending s1).2 with
    | inr p =>
        {| final := (h _ pending s1).1;
           trace :=
             [ EvLog ("Successfully retrieved AWSPENDING secret for "
                      +:+ show (ValueName p)
                      +:+ ", no further operation needed.");
               EvLog "createSecret: complete" ];
           result := inr tt |}
    | inl e => run_catch h args cur e (h _ pending s1).1
    end in
  {| final := final rest;
     trace :=
       EvLog "createSecret: start"
       :: EvCall (GetSecretValueCommand (arn args) None "AWSCURRENT") (inr cur)
       :: EvLog ("Successfully retrieved AWSCURRENT secret for "
                 +:+ show (ValueName cur))
       :: EvCall pending (h _ pending s1).2
       :: trace rest;
     result := result rest |}.
Proof.
  intros Hcur Htruthy. unfold createSecret, console_log, send.
  cbn [bind run]. rewrite Hcur. cbn [bind run]. rewrite Htruthy.
  cbn [negb bind run].
  unfold createSecret_try, send, console_log, run_catch. cbn [bind try_catch run].
  destruct (h _ (GetSecretValueCommand (arn args) (Some (token args))
                   "AWSPENDING") _).2 as [e|p]; reflexivity.
Qed.

(** The outcome of the [catch] block on a not-found error. *)
Lemma run_catch_not_found args cur e s :
  err_name e = ResourceNotFoundException ->
  run_catch h args cur e s =
  let gen := h _ (GenerateSecretCall args) s in
  let rest :=
    match gen.2 with
    | inl e' => {| final := gen.1; trace := []; result := inl e' |}
    | inr new_secret =>
        let put_cmd := PutSecretValueCommand (arn args) (token args)
                         new_secret ["AWSPENDING"] in
        let put := h _ put_cmd gen.1 in
        {| final := put.1;
           trace :=
             EvCall put_cmd put.2 ::
             match put.2 with
             | inl _ => []
             | inr _ =>
                 [ EvLog ("Successfully created AWSPENDING for secret "
                          +:+ show (ValueName cur) +:+ ".");
                   EvLog "createSecret: complete" ]
             end;
           result := match put.2 with inl e' => inl e' | inr _ => inr tt end |}
    end in
  {| final := final rest;
     trace :=
       EvLog ("secret " +:+ show (ValueName cur)
              +:+ " didn't exist in AWSPENDING. Generating new secret for AWSPENDING stage.")
       :: EvCall (GenerateSecretCall args) gen.2
       :: trace rest;
     result := result rest |}.
Proof.
  intros Hname. unfold run_catch, createSecret_catch.
  rewrite Hname. rewrite bool_decide_eq_true_2 by done.
  unfold generateSecret, console_log, send. cbn [negb bind run].
  destruct (h _ (GenerateSecretCall args) s).2 as [e'|v]; [reflexivity|].
  cbn [bind run].
  destruct (h _ (PutSecretValueCommand _ _ _ _) _).2 as [e'|[]]; reflexivity.
Qed.

(** The outcome of the [catch] block on any other error: it is rethrown. *)
Lemma run_catch_other args cur e s :
  err_name e <> ResourceNotFoundException ->
  run_catch h args cur e s = {| final := s; trace := []; result := inl e |}.
Proof.
  intros Hname. unfold run_catch, createSecret_catch.
  rewrite bool_decide_eq_false_2 by done. reflexivity.
Qed.

(** The outcome of [createSecret] when the read of the current value is
    rejected. *)
Lemma createSecret_current_rejected args s e :
  (h _ (GetSecretValueCommand (arn args) None "AWSCURRENT") s).2 = inl e ->
  run h (createSecret args) s =
  {| final := (h _ (GetSecretValueCommand (arn args) None "AWSCURRENT") s).1;
     trace := [ EvLog "createSecret: start";
                EvCall (GetSecretValueCommand (arn args) None "AWSCURRENT")
                  (inl e) ];
     result := inl e |}.
Proof.
  intros Hcur. unfold createSecret, console_log, send.
  cbn [bind run]. rewrite Hcur. reflexivity.
Qed.

(** The outcome of [createSecret] when the current value comes back without
    a string, or with an empty one. *)
Lemma createSecret_current_falsy args s cur :
  (h _ (GetSecretValueCommand (arn args) None "AWSCURRENT") s).2 = inr cur ->
  truthy_string (SecretString cur) = false ->
  run h (createSecret args) s =
  {| final := (h _ (GetSecretValueCommand (arn args) None "AWSCURRENT") s).1;
     trace := [ EvLog "createSecret: start";
                EvCall (GetSecretValueCommand (arn args) None "AWSCURRENT")
                  (inr cur) ];
     result := inl NoCurrentSecret |}.
Proof.
  intros Hcur Hfalsy. unfold createSecret, console_log, send.
  cbn [bind run]. rewrite Hcur. cbn [bind run]. rewrite Hfalsy. reflexivity.
Qed.
End CreateSecret.


(** Every write [createSecret] sends is the one put of the value
    [generateSecret] has just returned, under the version token and the
    pending label. *)
Lemma createSecret_writes {S} (h : Handler S) args s :
  let o := run h (createSecret args) s in
  writes (trace o) = [] \/
  exists new_secret,
    EvCall (GenerateSecretCall args) (inr new_secret) ∈ trace o /\
    writes (trace o) =
      [ WritePut (arn args) (token args) new_secret ["AWSPENDING"] ].
Proof.
  cbv zeta.
  destruct (h _ (GetSecretValueCommand (arn args) None "AWSCURRENT") s).2
    as [e0|cur] eqn:Hcur.
  { rewrite (createSecret_current_rejected h args s e0 Hcur). by left. }
  destruct (truthy_string (SecretString cur)) eqn:Htruthy.
  2: { rewrite (createSecret_current_falsy h args s cur Hcur Htruthy). by left. }
  rewrite (createSecret_after_current h args s cur Hcur Htruthy). cbv zeta.
  destruct (h _ (GetSecretValueCommand (arn args) (Some (token args))
                   "AWSPENDING") _).2 as [e1|p] eqn:Hpen.
  2: { by left. }
  destruct (decide (err_name e1 = ResourceNotFoundException)) as [Hname|Hname].
  2: { rewrite (run_catch_other h args cur e1 _ Hname). by left. }
  rewrite (run_catch_not_found h args cur e1 _ Hname). cbv zeta.
  destruct (h _ (GenerateSecretCall args) _).2 as [e2|v] eqn:Hgen.
  { by left. }
  right. exists v. split.
  - cbn [trace]. do 5 right. left.
  - cbn [trace].
    by destruct (h _ (PutSecretValueCommand _ _ _ _) _).2 as [e3|[]].
Qed.

(** C6, as stated, fails: with no version staged current the current value
    is absent, the store rejects the read, and [createSecret] fails with the
    store's not-found error, not with [NoCurrentSecret]. *)
Lemma createSecret_current_absent_not_found :
  holders "AWSCURRENT" (versions db_app_no_current) = [] /\
  result (run (store example_downstream) (createSecret example_args)
            (world_of db_app_no_current)) = inl NotFound /\
  NotFound <> NoCurrentSecret.
Proof. split_and!; [reflexivity|reflexivity|intros [=]]. Qed.

(** C6 (amended): when the read of the current value answers without a
    secret string, or with an empty one, [createSecret] fails with
    [NoCurrentSecret]; when the store rejects that read (no version is staged
    current), [createSecret] fails with the store's error instead.  Either
    way the run stops right after that read, before any call to
    [generateSecret] and before any write to the store. *)
Theorem createSecret_no_current {S} (h : Handler S) args s :
  let read := GetSecretValueCommand (arn args) None "AWSCURRENT" in
  let o := run h (createSecret args) s in
  (forall cur,
     (h _ read s).2 = inr cur ->
     SecretString cur = None \/ SecretString cur = Some EmptyString ->
     result o = inl NoCurrentSecret /\
     trace o = [ EvLog "createSecret: start"; EvCall read (inr cur) ] /\
     generate_calls (trace o) = [] /\
     writes (trace o) = [] /\
     final o = (h _ read s).1) /\
  (forall e,
     (h _ read s).2 = inl e ->
     result o = inl e /\
     trace o = [ EvLog "createSecret: start"; EvCall read (inl e) ] /\
     generate_calls (trace o) = [] /\
     writes (trace o) = [] /\
     final o = (h _ read s).1).
Proof.
  cbv zeta. split.
  - intros cur Hcur Hempty.
    rewrite (createSecret_current_falsy h args s cur Hcur).
    + repeat split; reflexivity.
    + by destruct Hempty as [-> | ->].
  - intros e Hcur.
    rewrite (createSecret_current_rejected h args s e Hcur).
    repeat split; reflexivity.
Qed.

Lemma createSecret_no_current_witness :
  result (run (store example_downstream) (createSecret example_args)
            (world_of db_app_binary)) = inl NoCurrentSecret /\
  result (run (store example_downstream) (createSecret example_args)
            (world_of db_app_empty)) = inl NoCurrentSecret /\
  (result (run (store example_downstream) (createSecret example_args)
             (world_of db_app_no_current)) = inl NotFound /\
   writes (trace (run (store example_downstream) (createSecret example_args)
                    (world_of db_app_no_current))) = []).
Proof.
  split; [|split].
  - refine (proj1 (proj1 (createSecret_no_current (store example_downstream)
                            example_args (world_of db_app_binary))
                     {| ValueName := Some "db/app"; VersionId := Some "v1";
                        SecretString := None |} _ _)).
    + reflexivity.
    + left. reflexivity.
  - refine (proj1 (proj1 (createSecret_no_current (store example_downstream)
                            example_args (world_of db_app_empty))
                     {| ValueName := Some "db/app"; VersionId := Some "v1";
                        SecretString := Some EmptyString |} _ _)).
    + reflexivity.
    + right. reflexivity.
  - destruct (proj2 (createSecret_no_current (store example_downstream)
                       example_args (world_of db_app_no_current))
                NotFound) as (Hres & _ & _ & Hwr & _).
    + reflexivity.
    + split; [exact Hres | exact Hwr].
Defined.



(** ** finishSecret *)

Section FinishSecret.
Context {S : Type} (h : Handler S).
Implicit Types (args : StepCommandArgs) (s : S).

(** The outcome of [finishSecret] once the metadata read has answered. *)
Lemma finishSecret_after_describe args s md :
  (h _ (DescribeSecretCommand (arn args)) s).2 = inr md ->
  run h (finishSecret args) s =
  let s1 := (h _ (DescribeSecretCommand (arn args)) s).1 in
  let rest :=
    match VersionIdsToStages md with
    | None => {| final := s1; trace := []; result := inl MissingMetadata |}
    | Some stages =>
        match finishSecret_loop stages (Object_keys stages) (token args)
                "None" with
        | ReturnedEarly version =>
            {| final := s1;
               trace :=
                 [ EvLog ("Version " +:+ version
                          +:+ " already marked as AWSCURRENT for "
                          +:+ show (Name md)
                          +:+ ", no further operation needed.") ];
               result := inr tt |}
        | LoopDone current_version =>
            if bool_decide (current_version = "None") then
              {| final := s1; trace := [];
                 result := inl NoCurrentVersionFound |}
            else run_move h args md current_version s1
        end
    end in
  {| final := final rest;
     trace := EvLog "finishSecret: start"
              :: EvCall (DescribeSecretCommand (arn args)) (inr md)
              :: trace rest;
     result := result rest |}.
Proof.
  intros Hmd. unfold finishSecret, console_log, send.
  cbn [bind run]. rewrite Hmd. cbn [bind run]. cbv zeta.
  destruct (VersionIdsToStages md) as [stages|]; [|reflexivity].
  destruct (finishSecret_loop _ _ _ _) as [version|cv]; [reflexivity|].
  case_bool_decide; [reflexivity|].
  unfold run_move. cbn [bind run].
  destruct (h _ (UpdateSecretVersionStageCommand _ _ _ _) _).2 as [e|[]];
    reflexivity.
Qed.

Lemma finishSecret_describe_rejected args s e :
  (h _ (DescribeSecretCommand (arn args)) s).2 = inl e ->
  run h (finishSecret args) s =
  {| final := (h _ (DescribeSecretCommand (arn args)) s).1;
     trace := [ EvLog "finishSecret: start";
                EvCall (DescribeSecretCommand (arn args)) (inl e) ];
     result := inl e |}.
Proof.
  intros Hmd. unfold finishSecret, console_log, send.
  cbn [bind run]. rewrite Hmd. reflexivity.
Qed.
End FinishSecret.

(** When the loop falls out with a version, it is not the version token. *)
Lemma finishSecret_loop_done m keys tok cv0 cv :
  finishSecret_loop m keys tok cv0 = LoopDone cv -> cv = cv0 \/ cv <> tok.
Proof.
  induction keys as [|k keys IH]; cbn [finishSecret_loop].
  - intros [= ->]. by left.
  - destruct (includes _ _); [|done].
    case_bool_decide as Hk; [done|]. intros [= <-]. by right.
Qed.

(** Whatever the store answers, [finishSecret] sends no write, or the one
    stage move of the current label onto the version token and off another
    version: never two label writes. *)
Lemma finishSecret_writes {S} (h : Handler S) args s :
  let o := run h (finishSecret args) s in
  writes (trace o) = [] \/
  exists cv,
    cv <> token args /\
    writes (trace o) = [ WriteMove (arn args) "AWSCURRENT" (token args) cv ].
Proof.
  cbv zeta.
  destruct (h _ (DescribeSecretCommand (arn args)) s).2 as [e|md] eqn:Hmd.
  { rewrite (finishSecret_describe_rejected h args s e Hmd). by left. }
  rewrite (finishSecret_after_describe h args s md Hmd). cbv zeta.
  destruct (VersionIdsToStages md) as [m|]; [|by left].
  destruct (finishSecret_loop _ _ _ _) as [version|cv] eqn:Hloop; [by left|].
  case_bool_decide as Hnone; [by left|].
  right. exists cv. split.
  - by destruct (finishSecret_loop_done _ _ _ _ _ Hloop).
  - unfold run_move. cbn [trace].
    by destruct (h _ (UpdateSecretVersionStageCommand _ _ _ _) _).2 as [e|[]].
Qed.

(** C10: when the metadata carries no version-to-stages mapping, or a mapping
    in which no version is staged current, [finishSecret] throws
    ([MissingMetadata], respectively [NoCurrentVersionFound]) with the
    metadata read as its only command: no write has been sent, and a store
    that answers the read without changing is left exactly as it was. *)
Theorem finishSecret_atomic_on_error {S} (h : Handler S) args s md :
  h _ (DescribeSecretCommand (arn args)) s = (s, inr md) ->
  VersionIdsToStages md = None \/
  (exists m, VersionIdsToStages md = Some m /\
             forall k ls, (k, ls) ∈ m -> "AWSCURRENT" ∉ ls) ->
  let o := run h (finishSecret args) s in
  result o = inl (match VersionIdsToStages md with
                  | None => MissingMetadata
                  | Some _ => NoCurrentVersionFound
                  end) /\
  trace o = [ EvLog "finishSecret: start";
              EvCall (DescribeSecretCommand (arn args)) (inr md) ] /\
  writes (trace o) = [] /\
  final o = s.
Proof.
  intros Hh Hcause o. subst o.
  assert (Hmd : (h _ (DescribeSecretCommand (arn args)) s).2 = inr md)
    by (by rewrite Hh).
  rewrite (finishSecret_after_describe h args s md Hmd). cbv zeta.
  rewrite Hh. cbn [fst].
  destruct Hcause as [-> | (m & -> & Hnone)].
  - repeat split; reflexivity.
  - rewrite (finishSecret_loop_none m (token args) "None" Hnone).
    repeat split; reflexivity.
Qed.

Lemma finishSecret_atomic_on_error_witness :
  result (run (store example_downstream) (finishSecret example_args)
            (world_of db_app_no_current)) = inl NoCurrentVersionFound /\
  final (run (store example_downstream) (finishSecret example_args)
           (world_of db_app_no_current)) = world_of db_app_no_current.
Proof.
  pose proof (finishSecret_atomic_on_error (store example_downstream)
                example_args (world_of db_app_no_current)
                {| Name := Some "db/app"; RotationEnabled := Some true;
                   VersionIdsToStages :=
                     Some (stage_map (versions db_app_no_current)) |}) as H.
  destruct H as (Hres & _ & _ & Hfinal).
  - reflexivity.
  - right. exists (stage_map (versions db_app_no_current)).
    split; [reflexivity|]. intros k ls Hin Hcur.
    vm_compute in Hin.
    repeat (apply elem_of_cons in Hin as [[= -> ->]|Hin]).
    + apply elem_of_cons in Hcur as [[=]|Hcur]. by apply elem_of_nil in Hcur.
    + apply elem_of_cons in Hcur as [[=]|Hcur]. by apply elem_of_nil in Hcur.
    + by apply elem_of_nil in Hin.
  - split; [exact Hres | exact Hfinal].
Defined.

(** ** The reference store: versions and their labels *)

Section Versions.
Implicit Types (vs : JsObject Version) (k label : string) (v : Version).

Lemma Object_keys_stage_map vs : Object_keys (stage_map vs) = Object_keys vs.
Proof.
  unfold Object_keys, stage_map. rewrite <- list_fmap_compose.
  by apply list_fmap_ext.
Qed.

Lemma js_get_stage_map vs k : js_get (stage_map vs) k = stages <$> js_get vs k.
Proof.
  induction vs as [|[k' v'] vs IH]; simpl; [done|].
  by case_bool_decide.
Qed.

Lemma js_alter_cons {V} key (f : V -> V) k (x : V) (o : JsObject V) :
  js_alter key f ((k, x) :: o) =
  (if bool_decide (k = key) then (k, f x) else (k, x)) :: js_alter key f o.
Proof. reflexivity. Qed.

Lemma Object_keys_js_alter {V} key (f : V -> V) (o : JsObject V) :
  Object_keys (js_alter key f o) = Object_keys o.
Proof.
  unfold Object_keys, js_alter. rewrite <- list_fmap_compose.
  apply list_fmap_ext. intros i [k' v'] _. simpl. by case_bool_decide.
Qed.

Lemma js_get_js_alter_ne {V} key (f : V -> V) (o : JsObject V) k :
  k <> key -> js_get (js_alter key f o) k = js_get o k.
Proof.
  intros Hne. induction o as [|[k' v'] o IH]; simpl; [done|].
  case_bool_decide as Hk'; simpl.
  - subst k'. rewrite !bool_decide_eq_false_2 by done. apply IH.
  - case_bool_decide; [done|apply IH].
Qed.

Lemma js_get_js_alter_eq {V} key (f : V -> V) (o : JsObject V) :
  js_get (js_alter key f o) key = f <$> js_get o key.
Proof.
  induction o as [|[k' v'] o IH]; simpl; [done|].
  case_bool_decide as Hk'; simpl.
  - by rewrite bool_decide_eq_true_2.
  - by rewrite bool_decide_eq_false_2.
Qed.

Lemma js_get_app_l {V} (o1 o2 : JsObject V) k (x : V) :
  js_get o1 k = Some x -> js_get (o1 ++ o2) k = Some x.
Proof.
  induction o1 as [|[k' v'] o1 IH]; simpl; [done|].
  by case_bool_decide.
Qed.

Lemma js_get_app_r {V} (o1 o2 : JsObject V) k :
  js_get o1 k = None -> js_get (o1 ++ o2) k = js_get o2 k.
Proof.
  induction o1 as [|[k' v'] o1 IH]; simpl; [done|].
  by case_bool_decide.
Qed.

Lemma holders_cons label k v vs :
  holders label ((k, v) :: vs) =
  if includes (stages v) label then k :: holders label vs
  else holders label vs.
Proof.
  unfold holders, includes. rewrite filter_cons. simpl.
  case_decide as Hin.
  - by rewrite bool_decide_eq_true_2.
  - by rewrite bool_decide_eq_false_2.
Qed.

Lemma elem_of_holders label vs k :
  k ∈ holders label vs <-> exists v, (k, v) ∈ vs /\ label ∈ stages v.
Proof.
  unfold holders. rewrite list_elem_of_fmap. split.
  - intros ([k' v] & -> & Hin). apply list_elem_of_filter in Hin as [Hl Hin].
    by exists v.
  - intros (v & Hin & Hl). exists (k, v). split; [done|].
    by apply list_elem_of_filter.
Qed.

(** The loop of [finishSecret] over the stage mapping of a store stops at
    the first version staged current. *)
Lemma finishSecret_loop_entries (m : JsObject (list string)) tok cv0 vs :
  (forall k v, (k, v) ∈ vs -> js_get m k = Some (stages v)) ->
  finishSecret_loop m (Object_keys vs) tok cv0 =
  match holders "AWSCURRENT" vs with
  | [] => LoopDone cv0
  | k :: _ => if bool_decide (k = tok) then ReturnedEarly k else LoopDone k
  end.
Proof.
  induction vs as [|[k v] vs IH]; intros Hget; [done|].
  cbn [Object_keys fmap list_fmap fst finishSecret_loop].
  rewrite (Hget k v) by left. cbn [default from_option id].
  rewrite holders_cons.
  destruct (includes (stages v) "AWSCURRENT"); [done|].
  apply IH. intros k' v' Hin. apply Hget. by right.
Qed.

Lemma finishSecret_loop_holders vs tok cv0 :
  NoDup (Object_keys vs) ->
  finishSecret_loop (stage_map vs) (Object_keys (stage_map vs)) tok cv0 =
  match holders "AWSCURRENT" vs with
  | [] => LoopDone cv0
  | k :: _ => if bool_decide (k = tok) then ReturnedEarly k else LoopDone k
  end.
Proof.
  intros Hnd. rewrite Object_keys_stage_map.
  apply finishSecret_loop_entries. intros k v Hin.
  rewrite js_get_stage_map. by rewrite (js_get_NoDup vs k v Hnd Hin).
Qed.

Lemma filter_eq_fresh (l : list string) k :
  k ∉ l -> filter (fun x => x = k) l = [].
Proof.
  induction l as [|x l IH]; intros Hk; [done|].
  apply not_elem_of_cons in Hk as [Hne Hk].
  rewrite filter_cons_False by done. by apply IH.
Qed.

Lemma filter_eq_NoDup (l : list string) k :
  NoDup l -> k ∈ l -> filter (fun x => x = k) l = [k].
Proof.
  induction l as [|x l IH]; intros Hnd Hin.
  - by apply elem_of_nil in Hin.
  - apply NoDup_cons in Hnd as [Hfresh Hnd]. rewrite filter_cons.
    case_decide as Hx.
    + subst x. f_equal. by apply filter_eq_fresh.
    + apply IH; [done|]. apply elem_of_cons in Hin as [->|Hin]; done.
Qed.

(** After the atomic move, the label is carried by the versions named
    [to], and by no other. *)
Lemma holders_move label to from vs :
  (forall k v, (k, v) ∈ vs -> label ∈ stages v -> k = from) ->
  from <> to ->
  holders label
    (js_alter to (add_label label) (js_alter from (remove_label label) vs))
  = filter (fun x => x = to) (Object_keys vs).
Proof.
  intros Honly Hne. induction vs as [|[k v] vs IH]; [done|].
  assert (IH' := IH (fun k' v' Hin =>
                       Honly k' v' (list_elem_of_further _ _ _ Hin))).
  rewrite (js_alter_cons from).
  change (Object_keys ((k, v) :: vs)) with (k :: Object_keys vs).
  rewrite filter_cons.
  destruct (decide (k = from)) as [->|Hkf].
  - rewrite (bool_decide_eq_true_2 (from = from)) by done.
    rewrite js_alter_cons, bool_decide_eq_false_2 by done.
    rewrite decide_False by done.
    rewrite holders_cons. cbn [remove_label stages].
    rewrite (proj2 (includes_false _ _)); [done|].
    intros Hin. apply list_elem_of_filter in Hin as [Hl _]. done.
  - rewrite (bool_decide_eq_false_2 (k = from)) by done.
    rewrite js_alter_cons.
    destruct (decide (k = to)) as [->|Hkt].
    + rewrite bool_decide_eq_true_2 by done.
      rewrite holders_cons. cbn [add_label stages].
      destruct (includes (stages v) label) eqn:Hinc.
      * rewrite Hinc. by rewrite IH'.
      * rewrite (proj2 (includes_true _ _)); [by rewrite IH'|].
        apply elem_of_app. right. left.
    + rewrite bool_decide_eq_false_2 by done.
      rewrite holders_cons.
      rewrite (proj2 (includes_false _ _)); [done|].
      intros Hin. apply Hkf. apply (Honly k v); [left|done].
Qed.
End Versions.

(** ** The reference store: its operations *)

Lemma set_secrets_id w : set_secrets w (secrets w) = w.
Proof. by destruct w. Qed.

Lemma wf_store_insert st a sec :
  wf_store st -> wf_secret sec -> wf_store (<[a := sec]> st).
Proof.
  intros Hwf Hsec a' sec' Hlook.
  destruct (decide (a = a')) as [->|Hne].
  - rewrite lookup_insert_eq in Hlook. by injection Hlook as <-.
  - rewrite lookup_insert_ne in Hlook by done. by eapply Hwf.
Qed.

(** A well-formed secret has no current version, or exactly one. *)
Lemma wf_secret_holders sec :
  wf_secret sec ->
  holders "AWSCURRENT" (versions sec) = [] \/
  exists k, holders "AWSCURRENT" (versions sec) = [k].
Proof.
  intros [_ Hlen]. destruct (holders _ _) as [|k [|k' l]]; eauto.
  simpl in Hlen. lia.
Qed.

Lemma holders_singleton_only label vs cv :
  holders label vs = [cv] ->
  forall k v, (k, v) ∈ vs -> label ∈ stages v -> k = cv.
Proof.
  intros Hh k v Hin Hl.
  assert (k ∈ holders label vs) as Hk by (apply elem_of_holders; eauto).
  rewrite Hh in Hk. by apply list_elem_of_singleton in Hk.
Qed.

(** What the atomic move answers: it is rejected and changes nothing, or it
    relabels the two versions of an existing secret. *)
Lemma moveStageVersion_cases st a label to from :
  (exists e, moveStageVersion st a label to from = (st, inl e)) \/
  (exists sec vf,
     st !! a = Some sec /\
     to ∈ Object_keys (versions sec) /\
     js_get (versions sec) from = Some vf /\
     label ∈ stages vf /\
     moveStageVersion st a label to from =
       (<[a := set_versions sec
                 (js_alter to (add_label label)
                    (js_alter from (remove_label label) (versions sec)))]> st,
        inr tt)).
Proof.
  unfold moveStageVersion.
  destruct (st !! a) as [sec|] eqn:Hsec; [|by left; eexists].
  destruct (js_get (versions sec) to) as [vt|] eqn:Hto; [|by left; eexists].
  destruct (js_get (versions sec) from) as [vf|] eqn:Hfrom; [|by left; eexists].
  destruct (includes (stages vf) label) eqn:Hinc; [|by left; eexists].
  right. exists sec, vf. repeat split; try done.
  - by eapply js_get_Some_key.
  - by apply includes_true.
Qed.

Lemma writes_nil_applied tr : writes tr = [] -> applied_writes tr = [].
Proof.
  induction tr as [|ev tr IH]; [done|].
  unfold writes, applied_writes. cbn [omap list_omap].
  destruct ev as [msg|X c r]; cbn [event_write event_applied_write].
  - apply IH.
  - destruct (write_of c) eqn:Hw; [done|].
    intros Htr. destruct r; by apply IH.
Qed.

Lemma applied_writes_length tr : length (applied_writes tr) ≤ length (writes tr).
Proof.
  induction tr as [|ev tr IH]; [done|].
  unfold writes, applied_writes in *. cbn [omap list_omap].
  destruct ev as [msg|X c r]; cbn [event_write event_applied_write]; [done|].
  destruct (write_of c) eqn:Hw.
  - destruct r; cbn [length]; lia.
  - by destruct r.
Qed.

Section FinishOnStore.
Context (d : Downstream).
Implicit Types (w : World) (args : StepCommandArgs).

(** The three ways a run of [finishSecret] on a well-formed store ends. *)
Lemma finishSecret_store w args :
  wf_store (secrets w) ->
  let o := run (store d) (finishSecret args) w in
  (exists sec,
     secrets w !! arn args = Some sec /\
     holders "AWSCURRENT" (versions sec) = [token args] /\
     result o = inr tt /\ writes (trace o) = [] /\ final o = w)
  \/
  (exists e,
     result o = inl e /\ applied_writes (trace o) = [] /\ final o = w /\
     forall sec, secrets w !! arn args = Some sec ->
                 holders "AWSCURRENT" (versions sec) <> [token args])
  \/
  (exists sec cv,
     secrets w !! arn args = Some sec /\
     holders "AWSCURRENT" (versions sec) = [cv] /\
     cv <> token args /\
     result o = inr tt /\
     writes (trace o) =
       [ WriteMove (arn args) "AWSCURRENT" (token args) cv ] /\
     applied_writes (trace o) =
       [ WriteMove (arn args) "AWSCURRENT" (token args) cv ] /\
     let vs' := js_alter (token args) (add_label "AWSCURRENT")
                  (js_alter cv (remove_label "AWSCURRENT") (versions sec)) in
     final o = set_secrets w (<[arn args := set_versions sec vs']> (secrets w)) /\
     Object_keys vs' = Object_keys (versions sec) /\
     holders "AWSCURRENT" vs' = [token args]).
Proof.
  intros Hwf. cbv zeta.
  destruct (secrets w !! arn args) as [sec|] eqn:Hsec.
  2: { right; left. exists NotFound.
       rewrite (finishSecret_describe_rejected (store d) args w NotFound);
         [|by cbn; unfold describeSecret; rewrite Hsec].
       by repeat split. }
  pose proof (Hwf _ _ Hsec) as Hsecwf.
  rewrite (finishSecret_after_describe (store d) args w
             {| Name := Some (secret_name sec);
                RotationEnabled := rotation_enabled sec;
                VersionIdsToStages := Some (stage_map (versions sec)) |});
    [|by cbn; unfold describeSecret; rewrite Hsec].
  cbv zeta. cbn [VersionIdsToStages store fst].
  rewrite (finishSecret_loop_holders _ _ _ (proj1 Hsecwf)).
  destruct (wf_secret_holders sec Hsecwf) as [Hh|[cv Hh]]; rewrite Hh.
  { right; left. exists NoCurrentVersionFound.
    rewrite bool_decide_eq_true_2 by done.
    repeat split; try done. intros sec' [= <-]. by rewrite Hh. }
  case_bool_decide as Htok.
  { subst cv. left. exists sec. by repeat split. }
  case_bool_decide as Hnone.
  { right; left. exists NoCurrentVersionFound.
    repeat split; try done. intros sec' [= <-]. rewrite Hh. congruence. }
  unfold run_move. cbn [store fst snd].
  destruct (moveStageVersion_cases (secrets w) (arn args) "AWSCURRENT"
              (token args) cv)
    as [[e Hmove]|(sec' & vf & Hsec' & Hto & Hfrom & Hlabel & Hmove)];
    rewrite Hmove; cbn [fst snd].
  { right; left. exists e. rewrite set_secrets_id.
    repeat split; try done. intros sec' [= <-]. rewrite Hh. congruence. }
  right; right. rewrite Hsec in Hsec'. injection Hsec' as <-.
  exists sec, cv. repeat split; try done.
  - by rewrite !Object_keys_js_alter.
  - rewrite holders_move; [|by apply holders_singleton_only|done].
    by apply filter_eq_NoDup; [apply Hsecwf|].
Qed.
End FinishOnStore.

Lemma wf_store_singleton a sec : wf_secret sec -> wf_store {[ a := sec ]}.
Proof.
  intros Hwf a' sec' Hlook.
  apply lookup_singleton_Some in Hlook as [_ <-]. done.
Qed.

(** C1: on a well-formed store, a successful [finishSecret] sends at most one
    write, and when it promotes that write is the single stage move of the
    current label onto the version token and off the version that held it
    (never two label writes); after the call exactly one version of the
    secret carries the current label, the version token. *)
Theorem finishSecret_single_move d w args :
  wf_store (secrets w) ->
  let o := run (store d) (finishSecret args) w in
  result o = inr tt ->
  exists sec sec',
    secrets w !! arn args = Some sec /\
    ((holders "AWSCURRENT" (versions sec) = [token args] /\
      writes (trace o) = []) \/
     (exists cv,
        holders "AWSCURRENT" (versions sec) = [cv] /\ cv <> token args /\
        writes (trace o) =
          [ WriteMove (arn args) "AWSCURRENT" (token args) cv ])) /\
    secrets (final o) !! arn args = Some sec' /\
    NoDup (Object_keys (versions sec')) /\
    holders "AWSCURRENT" (versions sec') = [token args].
Proof.
  intros Hwf o Hok. subst o.
  destruct (finishSecret_store d w args Hwf)
    as [(sec & Hsec & Hh & _ & Hwr & Hfin)
       |[(e & Hres & _)
        |(sec & cv & Hsec & Hh & Hne & _ & Hwr & _ & Hfin & Hkeys & Hh')]].
  - exists sec, sec. rewrite Hfin. repeat split; try done.
    + by left.
    + apply (Hwf _ _ Hsec).
  - rewrite Hres in Hok. done.
  - cbv zeta in Hfin.
    exists sec,
      (set_versions sec
         (js_alter (token args) (add_label "AWSCURRENT")
            (js_alter cv (remove_label "AWSCURRENT") (versions sec)))).
    rewrite Hfin. cbn [set_secrets secrets].
    rewrite lookup_insert_eq. repeat split; try done.
    + right. by exists cv.
    + cbn [set_versions versions]. rewrite Hkeys. apply (Hwf _ _ Hsec).
Qed.

Lemma finishSecret_single_move_witness :
  exists sec sec',
    secrets (world_of db_app_tested) !! "arn:db/app" = Some sec /\
    ((holders "AWSCURRENT" (versions sec) = ["v2"] /\
      writes (trace (run (store example_downstream) (finishSecret example_args)
                       (world_of db_app_tested))) = []) \/
     (exists cv,
        holders "AWSCURRENT" (versions sec) = [cv] /\ cv <> "v2" /\
        writes (trace (run (store example_downstream) (finishSecret example_args)
                         (world_of db_app_tested))) =
          [ WriteMove "arn:db/app" "AWSCURRENT" "v2" cv ])) /\
    secrets (final (run (store example_downstream) (finishSecret example_args)
                      (world_of db_app_tested))) !! "arn:db/app" = Some sec' /\
    NoDup (Object_keys (versions sec')) /\
    holders "AWSCURRENT" (versions sec') = ["v2"].
Proof.
  apply (finishSecret_single_move example_downstream (world_of db_app_tested)
           example_args).
  - apply wf_store_singleton. apply (bool_decide_unpack _). vm_compute. exact I.
  - vm_compute. reflexivity.
Defined.

(** C4: on a well-formed store, two calls of [finishSecret] for the same
    version token have the store perform the stage move at most once.  When
    the first call succeeds, the version token is the one version holding the
    current label when the second call starts, so the second call returns
    without sending any write and leaves the store as the first call left
    it: over the two calls at most one stage move has been sent at all. *)
Theorem finishSecret_twice d w args :
  wf_store (secrets w) ->
  let o1 := run (store d) (finishSecret args) w in
  let o2 := run (store d) (finishSecret args) (final o1) in
  length (filter (fun wr => is_move wr)
            (applied_writes (trace o1) ++ applied_writes (trace o2))) ≤ 1 /\
  (result o1 = inr tt ->
   (exists sec1,
      secrets (final o1) !! arn args = Some sec1 /\
      holders "AWSCURRENT" (versions sec1) = [token args]) /\
   result o2 = inr tt /\ writes (trace o2) = [] /\ final o2 = final o1 /\
   length (filter (fun wr => is_move wr)
             (writes (trace o1) ++ writes (trace o2))) ≤ 1).
Proof.
  intros Hwf o1 o2. subst o1 o2.
  destruct (finishSecret_store d w args Hwf)
    as [(sec & Hsec & Hh & Hres & Hwr & Hfin)
       |[(e & Hres & Happ & Hfin & _)
        |(sec & cv & Hsec & Hh & Hne & Hres & Hwr & Happ & Hfin & Hkeys & Hh')]].
  - rewrite Hfin, Hres, Hwr, (writes_nil_applied _ Hwr). cbn.
    split; [lia|]. intros _. split_and!; try done; [|lia]. by exists sec.
  - rewrite Hfin, Hres, Happ. cbn. split; [lia|done].
  - cbv zeta in Hfin.
    set (w' := final (run (store d) (finishSecret args) w)) in *.
    assert (Hwf' : wf_store (secrets w')).
    { rewrite Hfin. cbn [set_secrets secrets]. apply wf_store_insert; [done|].
      split; cbn [set_versions versions].
      - rewrite Hkeys. apply (Hwf _ _ Hsec).
      - rewrite Hh'. simpl. lia. }
    assert (Hsec' : exists sec', secrets w' !! arn args = Some sec' /\
                      holders "AWSCURRENT" (versions sec') = [token args]).
    { rewrite Hfin. cbn [set_secrets secrets]. rewrite lookup_insert_eq.
      eexists. split; [done|]. done. }
    destruct Hsec' as (sec' & Hsec' & Hh2).
    destruct (finishSecret_store d w' args Hwf')
      as [(sec2 & Hsec2 & _ & Hres2 & Hwr2 & Hfin2)
         |[(e & _ & _ & _ & Hno)
          |(sec2 & cv2 & Hsec2 & Hh2' & Hne2 & _)]].
    + rewrite Happ, Hwr, Hres2, Hwr2, (writes_nil_applied _ Hwr2), Hfin2.
      split; [vm_compute; lia|]. intros _. split_and!; try done.
      by exists sec'.
    + by destruct (Hno sec' Hsec').
    + rewrite Hsec' in Hsec2. injection Hsec2 as <-.
      rewrite Hh2 in Hh2'. congruence.
Qed.

Lemma finishSecret_twice_witness :
  (exists sec1,
     secrets (final (run (store example_downstream) (finishSecret example_args)
                       (world_of db_app_tested))) !! "arn:db/app" = Some sec1 /\
     holders "AWSCURRENT" (versions sec1) = ["v2"]) /\
  writes (trace (run (store example_downstream) (finishSecret example_args)
                   (final (run (store example_downstream)
                             (finishSecret example_args)
                             (world_of db_app_tested))))) = [] /\
  length (filter (fun wr => is_move wr)
            (writes (trace (run (store example_downstream)
                              (finishSecret example_args)
                              (world_of db_app_tested))) ++
             writes (trace (run (store example_downstream)
                              (finishSecret example_args)
                              (final (run (store example_downstream)
                                        (finishSecret example_args)
                                        (world_of db_app_tested))))))) ≤ 1.
Proof.
  destruct (proj2 (finishSecret_twice example_downstream
                     (world_of db_app_tested) example_args
                     ltac:(apply wf_store_singleton;
                           apply (bool_decide_unpack _); vm_compute; exact I)))
    as (Hcur & _ & Hwr & _ & Hlen).
  - vm_compute. reflexivity.
  - split_and!; [exact Hcur | exact Hwr | exact Hlen].
Defined.

(** ** The reference store: reads and the conditional put *)

Section PutFacts.
Implicit Types (vs : JsObject Version) (k label : string) (v : Version).

Lemma elem_of_add_label l label v :
  l ∈ stages (add_label label v) <-> l ∈ stages v \/ l = label.
Proof.
  unfold add_label. cbn [stages].
  destruct (includes (stages v) label) eqn:Hinc.
  - apply includes_true in Hinc. split; [by left|]. by intros [?| ->].
  - rewrite elem_of_app, list_elem_of_singleton. done.
Qed.

Lemma elem_of_add_labels l labels v :
  l ∈ stages (foldr add_label v labels) <-> l ∈ stages v \/ l ∈ labels.
Proof.
  induction labels as [|label labels IH]; cbn [foldr].
  - split; [by left|]. intros [?|Hin]; [done|]. by apply elem_of_nil in Hin.
  - rewrite elem_of_add_label, IH, elem_of_cons. tauto.
Qed.

Lemma first_staged_elem label vs k v :
  first_staged label vs = Some (k, v) -> (k, v) ∈ vs /\ label ∈ stages v.
Proof.
  induction vs as [|[k' v'] vs IH]; cbn [first_staged]; [done|].
  destruct (includes (stages v') label) eqn:Hinc.
  - intros [= -> ->]. split; [left|by apply includes_true].
  - intros Hfs. destruct (IH Hfs). split; [by right|done].
Qed.

Lemma first_staged_app label vs vs2 kv :
  first_staged label vs = Some kv -> first_staged label (vs ++ vs2) = Some kv.
Proof.
  induction vs as [|[k' v'] vs IH]; cbn [first_staged app]; [done|].
  by destruct (includes (stages v') label).
Qed.

(** Altering another version without giving it the label leaves the first
    version staged with that label in place. *)
Lemma first_staged_js_alter label t (f : Version -> Version) vs k0 v0 :
  (forall v, label ∈ stages (f v) -> label ∈ stages v) ->
  first_staged label vs = Some (k0, v0) ->
  k0 <> t ->
  first_staged label (js_alter t f vs) = Some (k0, v0).
Proof.
  intros Hf Hfs Hne. induction vs as [|[k v] vs IH]; [done|].
  rewrite js_alter_cons. cbn [first_staged] in Hfs.
  destruct (includes (stages v) label) eqn:Hinc.
  - injection Hfs as -> ->. rewrite bool_decide_eq_false_2 by done.
    cbn [first_staged]. by rewrite Hinc.
  - case_bool_decide as Hk; cbn [first_staged].
    + rewrite (proj2 (includes_false _ _)); [by apply IH|].
      intros Hin. apply Hf in Hin. by apply includes_false in Hinc.
    + rewrite Hinc. by apply IH.
Qed.

(** In a well-formed secret the version staged current is unique. *)
Lemma wf_secret_current_unique sec k1 v1 k2 v2 :
  wf_secret sec ->
  (k1, v1) ∈ versions sec -> "AWSCURRENT" ∈ stages v1 ->
  (k2, v2) ∈ versions sec -> "AWSCURRENT" ∈ stages v2 ->
  k1 = k2 /\ v1 = v2.
Proof.
  intros Hwf Hin1 Hl1 Hin2 Hl2.
  assert (k1 ∈ holders "AWSCURRENT" (versions sec)) as Hk1
    by (apply elem_of_holders; eauto).
  assert (k2 ∈ holders "AWSCURRENT" (versions sec)) as Hk2
    by (apply elem_of_holders; eauto).
  destruct (wf_secret_holders sec Hwf) as [Hh|[k Hh]]; rewrite Hh in Hk1, Hk2.
  - by apply elem_of_nil in Hk1.
  - apply list_elem_of_singleton in Hk1, Hk2. subst k1 k2. split; [done|].
    pose proof (js_get_NoDup _ _ _ (proj1 Hwf) Hin1) as Hg1.
    pose proof (js_get_NoDup _ _ _ (proj1 Hwf) Hin2) as Hg2.
    congruence.
Qed.

Lemma getSecretValue_error st a vid label e :
  getSecretValue st a vid label = inl e -> e = NotFound.
Proof.
  unfold getSecretValue.
  destruct (st !! a) as [sec|]; [|congruence].
  destruct (select_version _ _ _) as [[k v]|]; [|congruence].
  destruct (data v); congruence.
Qed.

(** What the conditional put answers: it is rejected and changes nothing,
    or it gives the version its value and labels and touches no other
    version. *)
Lemma putSecretValue_cases st a t value labels :
  (exists e, putSecretValue st a t value labels = (st, inl e)) \/
  (exists sec vs' vnew,
     st !! a = Some sec /\
     putSecretValue st a t value labels =
       (<[a := set_versions sec vs']> st, inr tt) /\
     (forall k, k <> t -> js_get vs' k = js_get (versions sec) k) /\
     (forall v0, js_get (versions sec) t = Some v0 -> data v0 = None) /\
     js_get vs' t = Some vnew /\
     data vnew = Some (StringData value) /\
     (forall l, l ∈ labels -> l ∈ stages vnew) /\
     (forall l k0 v0,
        l ∉ labels -> first_staged l (versions sec) = Some (k0, v0) ->
        k0 <> t -> first_staged l vs' = Some (k0, v0))).
Proof.
  unfold putSecretValue.
  destruct (st !! a) as [sec|] eqn:Hsec; [|by left; eexists].
  destruct (js_get (versions sec) t) as [v0|] eqn:Ht.
  - destruct (data v0) eqn:Hdata; [by left; eexists|].
    right. eexists sec, _, _. split; [done|]. split; [done|].
    split; [|split; [|split; [|split; [|split]]]].
    + intros k Hk. by apply js_get_js_alter_ne.
    + intros v0' Hv0. rewrite Ht in Hv0. by injection Hv0 as <-.
    + rewrite js_get_js_alter_eq, Ht. reflexivity.
    + reflexivity.
    + intros l Hl. cbn [stages]. apply elem_of_add_labels. by right.
    + intros l k0 v0' Hl Hfs Hne. apply first_staged_js_alter; try done.
      intros v. cbn [stages]. rewrite elem_of_add_labels. tauto.
  - right. eexists sec, _, _. split; [done|]. split; [done|].
    split; [|split; [|split; [|split; [|split]]]].
    + intros k Hk. destruct (js_get (versions sec) k) as [vk|] eqn:Hgk.
      * by apply js_get_app_l.
      * rewrite js_get_app_r by done. cbn [js_get].
        by rewrite bool_decide_eq_false_2.
    + intros v0 Hv0. by rewrite Ht in Hv0.
    + rewrite js_get_app_r by done. cbn [js_get].
      by rewrite bool_decide_eq_true_2.
    + reflexivity.
    + intros l Hl. cbn [stages]. apply elem_of_add_labels. by right.
    + intros l k0 v0' Hl Hfs Hne. by apply first_staged_app.
Qed.
End PutFacts.

Lemma getSecretValue_staged_inv st a label r :
  getSecretValue st a None label = inr r ->
  exists sec k0 v0 d0,
    st !! a = Some sec /\
    first_staged label (versions sec) = Some (k0, v0) /\
    data v0 = Some d0 /\
    r = {| ValueName := Some (secret_name sec);
           VersionId := Some k0;
           SecretString := match d0 with
                           | StringData x => Some x
                           | BinaryData => None
                           end |}.
Proof.
  unfold getSecretValue. cbn [select_version].
  destruct (st !! a) as [sec|] eqn:Hsec; [|done].
  destruct (first_staged label (versions sec)) as [[k0 v0]|] eqn:Hfs; [|done].
  destruct (data v0) as [d0|] eqn:Hd; [|done].
  intros [= <-]. by exists sec, k0, v0, d0.
Qed.

Section CreateOnStore.
Context (d : Downstream).
Implicit Types (w : World) (args : StepCommandArgs).

(** The two ways a run of [createSecret] on a well-formed store ends: with
    the store's secrets as they were, or with the generated value put under
    the version token. *)
Lemma createSecret_store w args :
  wf_store (secrets w) ->
  let o := run (store d) (createSecret args) w in
  let pending :=
    getSecretValue (secrets w) (arn args) (Some (token args)) "AWSPENDING" in
  (secrets (final o) = secrets w /\
   applied_writes (trace o) = [] /\
   (result o = inr tt ->
    final o = w /\ writes (trace o) = [] /\ generate_calls (trace o) = [] /\
    exists p, pending = inr p))
  \/
  (exists sec cur new_secret vs',
     let st' := <[arn args := set_versions sec vs']> (secrets w) in
     secrets w !! arn args = Some sec /\
     getSecretValue (secrets w) (arn args) None "AWSCURRENT" = inr cur /\
     truthy_string (SecretString cur) = true /\
     generated d (generate_count w) = inr new_secret /\
     result o = inr tt /\
     writes (trace o) =
       [ WritePut (arn args) (token args) new_secret ["AWSPENDING"] ] /\
     generate_calls (trace o) = [("generateSecret", args)] /\
     final o = {| secrets := st'; generate_count := S (generate_count w) |} /\
     (forall k, k <> token args -> js_get vs' k = js_get (versions sec) k) /\
     (forall v0, js_get (versions sec) (token args) = Some v0 ->
                 data v0 = None /\ "AWSCURRENT" ∉ stages v0) /\
     getSecretValue st' (arn args) None "AWSCURRENT" = inr cur /\
     getSecretValue st' (arn args) (Some (token args)) "AWSPENDING" =
       inr {| ValueName := Some (secret_name sec);
              VersionId := Some (token args);
              SecretString := Some new_secret |}).
Proof.
  intros Hwf. cbv zeta.
  destruct (getSecretValue (secrets w) (arn args) None "AWSCURRENT")
    as [e0|cur] eqn:Hcur.
  { rewrite (createSecret_current_rejected (store d) args w e0 Hcur).
    left. by repeat split. }
  destruct (truthy_string (SecretString cur)) eqn:Htruthy.
  2: { rewrite (createSecret_current_falsy (store d) args w cur Hcur Htruthy).
       left. by repeat split. }
  rewrite (createSecret_after_current (store d) args w cur Hcur Htruthy).
  cbv zeta. cbn [store fst snd].
  destruct (getSecretValue (secrets w) (arn args) (Some (token args))
              "AWSPENDING") as [e1|p] eqn:Hpen.
  2: { left. repeat split; try done. by exists p. }
  apply getSecretValue_error in Hpen as Hnf. subst e1.
  rewrite (run_catch_not_found (store d) args cur NotFound w eq_refl).
  cbv zeta. cbn [store fst snd secrets generate_count set_secrets].
  destruct (generated d (generate_count w)) as [e2|v] eqn:Hgen.
  { left. by repeat split. }
  destruct (putSecretValue_cases (secrets w) (arn args) (token args) v
              ["AWSPENDING"])
    as [[e3 Hput]
       |(sec & vs' & vnew & Hsec & Hput & Hframe & Hfresh & Hnew & Hdata
         & Hlabels & Hstaged)];
    rewrite Hput; cbn [fst snd set_secrets secrets generate_count final
                        trace result].
  { left. by repeat split. }
  right. exists sec, cur, v, vs'. cbv zeta.
  pose proof (Hwf _ _ Hsec) as Hsecwf.
  destruct (getSecretValue_staged_inv _ _ _ _ Hcur)
    as (sec0 & k0 & v0 & d0 & Hsec0 & Hfs & Hd0 & Hcur_eq).
  rewrite Hsec in Hsec0. injection Hsec0 as <-.
  destruct (first_staged_elem _ _ _ _ Hfs) as [Hin0 Hl0].
  assert (Hk0 : k0 <> token args).
  { intros ->. pose proof (js_get_NoDup _ _ _ (proj1 Hsecwf) Hin0) as Hg.
    apply Hfresh in Hg. congruence. }
  split_and!; try done.
  - intros v1 Hv1. split; [by apply Hfresh|].
    intros Hcurrent. apply js_get_Some_elem in Hv1.
    destruct (wf_secret_current_unique sec k0 v0 (token args) v1 Hsecwf)
      as [Heq _]; done.
  - unfold getSecretValue. rewrite lookup_insert_eq.
    cbn [select_version set_versions versions secret_name].
    rewrite (Hstaged "AWSCURRENT" k0 v0); [by rewrite Hd0, Hcur_eq| |done|done].
    intros Hin. apply list_elem_of_singleton in Hin. done.
  - unfold getSecretValue. rewrite lookup_insert_eq.
    cbn [select_version set_versions versions secret_name].
    rewrite Hnew. rewrite (proj2 (includes_true _ _)); [by rewrite Hdata|].
    apply Hlabels. left.
Qed.
End CreateOnStore.

(** C2: on a well-formed store, two calls of [createSecret] for the same
    secret and version token have the store accept at most one put, so the
    version token never gets a second pending value.  When the first call
    succeeds, the second succeeds as a no-op: it finds the pending value, does
    not call [generateSecret], sends no write and leaves the store as it was;
    over the two calls at most one value is generated and at most one put is
    sent, and the version token ends with one pending value: the one already
    there, or the one the first call generated. *)
Theorem createSecret_idempotent d w args :
  wf_store (secrets w) ->
  let o1 := run (store d) (createSecret args) w in
  let o2 := run (store d) (createSecret args) (final o1) in
  length (applied_writes (trace o1)) + length (applied_writes (trace o2)) ≤ 1 /\
  (result o1 = inr tt ->
   result o2 = inr tt /\
   generate_calls (trace o2) = [] /\
   writes (trace o2) = [] /\
   final o2 = final o1 /\
   length (writes (trace o1)) + length (writes (trace o2)) ≤ 1 /\
   length (generate_calls (trace o1)) + length (generate_calls (trace o2)) ≤ 1 /\
   exists p,
     getSecretValue (secrets (final o2)) (arn args) (Some (token args))
       "AWSPENDING" = inr p /\
     (writes (trace o1) = [] \/
      exists new_secret,
        writes (trace o1) =
          [ WritePut (arn args) (token args) new_secret ["AWSPENDING"] ] /\
        SecretString p = Some new_secret)).
Proof.
  intros Hwf o1 o2. subst o1 o2.
  destruct (createSecret_store d w args Hwf)
    as [(Hsame & Happ & Hnoop)
       |(sec & cur & v & vs' & _ & Hcur & Htruthy & Hgen & Hres & Hwr & Hcalls
         & Hfin & _ & _ & Hcur' & Hpen')].
  - split.
    + rewrite Happ. cbn [length].
      assert (Hwf1 : wf_store
                (secrets (final (run (store d) (createSecret args) w))))
        by (by rewrite Hsame).
      destruct (createSecret_store d _ args Hwf1)
        as [(_ & Happ2 & _)|(? & ? & ? & ? & _ & _ & _ & _ & _ & Hwr2 & _)].
      * rewrite Happ2. cbn [length]. lia.
      * pose proof (applied_writes_length
                      (trace (run (store d) (createSecret args)
                                (final (run (store d) (createSecret args) w)))))
          as Hle.
        rewrite Hwr2 in Hle. cbn [length] in Hle. lia.
    + intros Hok. destruct (Hnoop Hok) as (Hfin & Hwr & Hcalls & p & Hp).
      rewrite !Hfin, Hok, Hwr, Hcalls. cbn [length].
      split_and!; try done; try lia.
      exists p. split; [done|by left].
  - cbv zeta in Hfin, Hcur', Hpen'.
    pose proof (applied_writes_length
                  (trace (run (store d) (createSecret args) w))) as Hle.
    rewrite Hwr in Hle. cbn [length] in Hle.
    rewrite Hfin, Hwr, Hcalls.
    rewrite (createSecret_after_current (store d) args
               {| secrets := <[arn args := set_versions sec vs']> (secrets w);
                  generate_count := S (generate_count w) |}
               cur Hcur' Htruthy).
    cbv zeta. cbn [store fst snd secrets]. rewrite Hpen'.
    cbn [final trace result secrets]. split.
    + change (length (applied_writes
                        (trace (run (store d) (createSecret args) w))) + 0 ≤ 1).
      lia.
    + intros _. split_and!; try done.
      eexists. split; [exact Hpen'|]. right. by exists v.
Qed.

Lemma createSecret_idempotent_witness :
  result (run (store example_downstream) (createSecret example_args)
            (final (run (store example_downstream) (createSecret example_args)
                      example_world))) = inr tt.
Proof.
  refine (proj1 (proj2 (createSecret_idempotent example_downstream
                          example_world example_args _) _)).
  - apply wf_store_singleton. apply (bool_decide_unpack _). vm_compute. exact I.
  - vm_compute. reflexivity.
Defined.

(** C9: the only write [createSecret] ever sends is one put of the value
    [generateSecret] has just returned, under the version token and the
    pending label; and on a well-formed store every run of [createSecret]
    leaves every other secret, every version other than the version token,
    and the version staged current, with the value and labels they had. *)
Theorem createSecret_frame d w args :
  wf_store (secrets w) ->
  let o := run (store d) (createSecret args) w in
  (writes (trace o) = [] \/
   exists new_secret,
     EvCall (GenerateSecretCall args) (inr new_secret) ∈ trace o /\
     writes (trace o) =
       [ WritePut (arn args) (token args) new_secret ["AWSPENDING"] ]) /\
  (forall a, a <> arn args -> secrets (final o) !! a = secrets w !! a) /\
  (secrets w !! arn args = None -> secrets (final o) !! arn args = None) /\
  (forall sec,
     secrets w !! arn args = Some sec ->
     exists sec',
       secrets (final o) !! arn args = Some sec' /\
       secret_name sec' = secret_name sec /\
       rotation_enabled sec' = rotation_enabled sec /\
       (forall k, k <> token args ->
                  js_get (versions sec') k = js_get (versions sec) k) /\
       (forall k v, (k, v) ∈ versions sec -> "AWSCURRENT" ∈ stages v ->
                    js_get (versions sec') k = Some v)).
Proof.
  intros Hwf o. subst o.
  split; [apply createSecret_writes|].
  destruct (createSecret_store d w args Hwf)
    as [(Hsame & _)
       |(sec & cur & v & vs' & Hsec & _ & _ & _ & _ & _ & _
         & Hfin & Hframe & Hfresh & _)].
  - rewrite Hsame. split_and!; try done.
    intros sec Hsec. exists sec. split_and!; try done.
    intros k v0 Hin _. apply js_get_NoDup; [apply (Hwf _ _ Hsec)|done].
  - cbv zeta in Hfin. rewrite Hfin. cbn [secrets]. split_and!.
    + intros a Hne. by rewrite lookup_insert_ne.
    + intros Hnone. congruence.
    + intros sec0 Hsec0. rewrite Hsec in Hsec0. injection Hsec0 as <-.
      exists (set_versions sec vs'). rewrite lookup_insert_eq.
      split_and!; try done.
      intros k v0 Hin Hcurrent.
      pose proof (js_get_NoDup _ _ _ (proj1 (Hwf _ _ Hsec)) Hin) as Hget.
      destruct (decide (k = token args)) as [->|Hne].
      * by destruct (Hfresh v0 Hget).
      * cbn [set_versions versions]. by rewrite Hframe.
Qed.

Lemma two_secret_world_wf : wf_store (secrets two_secret_world).
Proof.
  apply wf_store_insert.
  - apply wf_store_singleton. apply (bool_decide_unpack _). vm_compute. exact I.
  - apply (bool_decide_unpack _). vm_compute. exact I.
Defined.

Lemma createSecret_frame_witness :
  writes (trace (run (store example_downstream) (createSecret example_args)
                   two_secret_world))
    = [ WritePut "arn:db/app" "v2" "new-pw" ["AWSPENDING"] ] /\
  secrets (final (run (store example_downstream) (createSecret example_args)
                    two_secret_world)) !! "arn:audit/key" = Some audit_secret /\
  exists sec',
    secrets (final (run (store example_downstream) (createSecret example_args)
                      two_secret_world)) !! "arn:db/app" = Some sec' /\
    js_get (versions sec') "v1" =
      Some {| stages := ["AWSCURRENT"]; data := Some (StringData "old-pw") |}.
Proof.
  destruct (createSecret_frame example_downstream two_secret_world example_args
              two_secret_world_wf) as (_ & Hother & _ & Hsame).
  split; [vm_compute; reflexivity|]. split.
  - rewrite (Hother "arn:audit/key") by done. vm_compute. reflexivity.
  - destruct (Hsame db_app) as (sec' & Hsec' & _ & _ & Hframe & _).
    + vm_compute. reflexivity.
    + exists sec'. split; [exact Hsec'|]. rewrite (Hframe "v1") by done.
      reflexivity.
Defined.

(** ** Further properties of the dispatcher *)

Lemma js_get_of_key {V} (o : JsObject V) k :
  k ∈ Object_keys o -> exists v, js_get o k = Some v.
Proof.
  induction o as [|[k' v'] o IH]; cbn [Object_keys fmap list_fmap js_get].
  - intros Hin. by apply elem_of_nil in Hin.
  - intros Hin. case_bool_decide as Hk; [by eexists|].
    apply elem_of_cons in Hin as [Heq|Hin]; [by subst|]. by apply IH.
Qed.

(** A secret whose metadata does not say that rotation is enabled (the flag
    is false, or missing) is refused with [RotationDisabled] right after the
    metadata read. *)
Theorem doRotate_rotation_disabled {S} (h : Handler S) inherited event s md :
  (h _ (DescribeSecretCommand (SecretId event)) s).2 = inr md ->
  RotationEnabled md <> Some true ->
  let o := run h (doRotate inherited event) s in
  result o = inl (RotationDisabled (SecretId event)) /\
  trace o = [ EvCall (DescribeSecretCommand (SecretId event)) (inr md) ] /\
  final o = (h _ (DescribeSecretCommand (SecretId event)) s).1.
Proof.
  intros Hmd Hen o. subst o.
  rewrite (doRotate_after_describe _ _ _ _ _ Hmd). cbv zeta.
  destruct (RotationEnabled md) as [[|]|]; [done| |]; by repeat split.
Qed.

Lemma doRotate_rotation_disabled_witness :
  result (run (store example_downstream)
            (doRotate no_inherited (request "v1" "createSecret"))
            (world_of db_app_unstaged))
  = inl (RotationDisabled "arn:db/app").
Proof.
  refine (proj1 (doRotate_rotation_disabled (store example_downstream)
                   no_inherited (request "v1" "createSecret")
                   (world_of db_app_unstaged)
                   {| Name := Some "db/app"; RotationEnabled := None;
                      VersionIdsToStages :=
                        Some (stage_map (versions db_app_unstaged)) |} _ _)).
  - reflexivity.
  - intros [=].
Defined.

(** On a secret with rotation enabled, a version token that is no key of the
    stage mapping (or a mapping that is missing altogether) is refused right
    after the metadata read.  The first membership test uses [in], which also
    answers for the names every object inherits, so a token such as
    [toString] passes it and is refused by the second test, with the second
    message. *)
Theorem doRotate_unknown_version {S} (h : Handler S) inherited event s md :
  (h _ (DescribeSecretCommand (SecretId event)) s).2 = inr md ->
  RotationEnabled md = Some true ->
  ClientRequestToken event ∉ Object_keys (default [] (VersionIdsToStages md)) ->
  let o := run h (doRotate inherited event) s in
  result o =
    inl (if includes Object_prototype_keys (ClientRequestToken event)
         then UnknownVersionKey (SecretId event) (ClientRequestToken event)
         else UnknownVersion (SecretId event) (ClientRequestToken event)) /\
  trace o = [ EvCall (DescribeSecretCommand (SecretId event)) (inr md) ] /\
  final o = (h _ (DescribeSecretCommand (SecretId event)) s).1.
Proof.
  intros Hmd Hen Hkey o. subst o.
  rewrite (doRotate_after_describe _ _ _ _ _ Hmd). cbv zeta.
  rewrite Hen. cbn [truthy_bool negb].
  unfold js_in. rewrite (proj2 (includes_false _ _) Hkey). cbn [orb negb].
  destruct (includes Object_prototype_keys (ClientRequestToken event));
    by repeat split.
Qed.

Lemma doRotate_unknown_version_witness :
  result (run (store example_downstream)
            (doRotate no_inherited (request "v9" "createSecret")) example_world)
  = inl (UnknownVersion "arn:db/app" "v9") /\
  result (run (store example_downstream)
            (doRotate no_inherited (request "toString" "createSecret"))
            example_world)
  = inl (UnknownVersionKey "arn:db/app" "toString").
Proof.
  split.
  - refine (proj1 (doRotate_unknown_version (store example_downstream)
                     no_inherited (request "v9" "createSecret") example_world
                     {| Name := Some "db/app"; RotationEnabled := Some true;
                        VersionIdsToStages :=
                          Some (stage_map (versions db_app)) |} _ _ _));
      [reflexivity|reflexivity|].
    apply (bool_decide_unpack _). vm_compute. exact I.
  - refine (proj1 (doRotate_unknown_version (store example_downstream)
                     no_inherited (request "toString" "createSecret")
                     example_world
                     {| Name := Some "db/app"; RotationEnabled := Some true;
                        VersionIdsToStages :=
                          Some (stage_map (versions db_app)) |} _ _ _));
      [reflexivity|reflexivity|].
    apply (bool_decide_unpack _). vm_compute. exact I.
Defined.

(** A request that passes validation is handed to the phase its step names:
    the run of the dispatcher is the metadata read followed by the run of
    that phase, on the event's secret and version token, whatever other
    members the object has. *)
Theorem doRotate_dispatch {S} (h : Handler S) inherited event s md
    versions labels :
  (h _ (DescribeSecretCommand (SecretId event)) s).2 = inr md ->
  RotationEnabled md = Some true ->
  VersionIdsToStages md = Some versions ->
  js_get versions (ClientRequestToken event) = Some labels ->
  "AWSCURRENT" ∉ labels ->
  "AWSPENDING" ∈ labels ->
  let o := run h (doRotate inherited event) s in
  let s1 := (h _ (DescribeSecretCommand (SecretId event)) s).1 in
  let read := EvCall (DescribeSecretCommand (SecretId event)) (inr md) in
  (Step event = "createSecret" ->
   o = prepend_event read (run h (createSecret (args_of event)) s1)) /\
  (Step event = "setSecret" ->
   o = prepend_event read (run h (setSecret (args_of event)) s1)) /\
  (Step event = "testSecret" ->
   o = prepend_event read (run h (testSecret (args_of event)) s1)) /\
  (Step event = "finishSecret" ->
   o = prepend_event read (run h (finishSecret (args_of event)) s1)).
Proof.
  intros Hmd Hen Hvs Hget Hcur Hpen o s1 read. subst o s1 read.
  validate Hmd Hen Hvs Hget.
  rewrite (proj2 (includes_false _ _) Hcur), (proj2 (includes_true _ _) Hpen).
  cbn [negb]. split_and!; intros ->; reflexivity.
Qed.

Lemma doRotate_dispatch_witness :
  run (store example_downstream)
    (doRotate no_inherited (request "v2" "createSecret")) example_world
  = prepend_event
      (EvCall (DescribeSecretCommand "arn:db/app")
         (inr {| Name := Some "db/app"; RotationEnabled := Some true;
                 VersionIdsToStages := Some (stage_map (versions db_app)) |}))
      (run (store example_downstream) (createSecret example_args) example_world).
Proof.
  refine (proj1 (doRotate_dispatch (store example_downstream) no_inherited
                   (request "v2" "createSecret") example_world
                   {| Name := Some "db/app"; RotationEnabled := Some true;
                      VersionIdsToStages := Some (stage_map (versions db_app)) |}
                   (stage_map (versions db_app)) ["AWSPENDING"]
                   _ _ _ _ _ _) _); try reflexivity.
  - intros Hin. apply elem_of_cons in Hin as [[=]|Hin]. by apply elem_of_nil in Hin.
  - left.
Defined.

(** The dispatcher guards every effect: whenever a run of [doRotate] sends a
    write to the store or calls a method of the subclass, the metadata said
    that rotation is enabled and that the version token is staged pending and
    not current. *)
Theorem doRotate_effects_validated {S} (h : Handler S) inherited event s :
  let o := run h (doRotate inherited event) s in
  writes (trace o) <> [] \/ downstream_calls (trace o) <> [] ->
  exists md versions labels,
    (h _ (DescribeSecretCommand (SecretId event)) s).2 = inr md /\
    RotationEnabled md = Some true /\
    VersionIdsToStages md = Some versions /\
    js_get versions (ClientRequestToken event) = Some labels /\
    "AWSPENDING" ∈ labels /\
    "AWSCURRENT" ∉ labels.
Proof.
  cbv zeta.
  destruct (h _ (DescribeSecretCommand (SecretId event)) s).2
    as [e|md] eqn:Hmd.
  { unfold doRotate, send. cbn [bind run]. rewrite Hmd. cbn. by intros [?|?]. }
  rewrite (doRotate_after_describe _ _ _ _ _ Hmd). cbv zeta.
  destruct (RotationEnabled md) as [[|]|] eqn:Hen;
    [|cbn; by intros [?|?]..].
  cbn [truthy_bool negb].
  destruct (VersionIdsToStages md) as [versions|] eqn:Hvs;
    cbn [default from_option id].
  2: { destruct (js_in _ _); cbn; by intros [?|?]. }
  destruct (js_in (ClientRequestToken event) versions);
    [|cbn; by intros [?|?]].
  cbn [negb].
  destruct (includes (Object_keys versions) (ClientRequestToken event))
    eqn:Hkey; [|cbn; by intros [?|?]].
  apply includes_true, js_get_of_key in Hkey as [labels Hget].
  rewrite Hget. cbn [negb default from_option id].
  destruct (includes labels "AWSCURRENT") eqn:Hcur; [cbn; by intros [?|?]|].
  destruct (includes labels "AWSPENDING") eqn:Hpen; [|cbn; by intros [?|?]].
  intros _. exists md, versions, labels. split_and!; try done.
  - by apply includes_true.
  - by apply includes_false.
Qed.

Lemma doRotate_effects_validated_witness :
  exists md versions labels,
    (store example_downstream _ (DescribeSecretCommand "arn:db/app")
       example_world).2 = inr md /\
    RotationEnabled md = Some true /\
    VersionIdsToStages md = Some versions /\
    js_get versions "v2" = Some labels /\
    "AWSPENDING" ∈ labels /\
    "AWSCURRENT" ∉ labels.
Proof.
  apply (doRotate_effects_validated (store example_downstream) no_inherited
           (request "v2" "createSecret") example_world).
  left. vm_compute. intros [=].
Defined.

(** The two phases the subclass supplies, reached through the dispatcher:
    the run is the metadata read and the one call, nothing is written to the
    store, and what the method answers, success or error, is what the
    dispatcher answers. *)
Theorem doRotate_set_test {S} (h : Handler S) inherited event s md
    versions labels :
  (h _ (DescribeSecretCommand (SecretId event)) s).2 = inr md ->
  RotationEnabled md = Some true ->
  VersionIdsToStages md = Some versions ->
  js_get versions (ClientRequestToken event) = Some labels ->
  "AWSCURRENT" ∉ labels ->
  "AWSPENDING" ∈ labels ->
  let o := run h (doRotate inherited event) s in
  let s1 := (h _ (DescribeSecretCommand (SecretId event)) s).1 in
  let read := EvCall (DescribeSecretCommand (SecretId event)) (inr md) in
  (Step event = "setSecret" ->
   let r := h _ (SetSecretCall (args_of event)) s1 in
   result o = r.2 /\ final o = r.1 /\ writes (trace o) = [] /\
   trace o = [ read; EvCall (SetSecretCall (args_of event)) r.2 ]) /\
  (Step event = "testSecret" ->
   let r := h _ (TestSecretCall (args_of event)) s1 in
   result o = r.2 /\ final o = r.1 /\ writes (trace o) = [] /\
   trace o = [ read; EvCall (TestSecretCall (args_of event)) r.2 ]).
Proof.
  intros Hmd Hen Hvs Hget Hcur Hpen o s1 read. subst o s1 read.
  validate Hmd Hen Hvs Hget.
  rewrite (proj2 (includes_false _ _) Hcur), (proj2 (includes_true _ _) Hpen).
  cbn [negb]. split; intros ->; cbv zeta.
  - change (this_member inherited "setSecret") with (Some setSecret).
    unfold setSecret, send. cbn [run final trace result fst snd].
    fold (args_of event).
    destruct (h _ (SetSecretCall (args_of event)) _) as [s2 [e|[]]];
      by repeat split.
  - change (this_member inherited "testSecret") with (Some testSecret).
    unfold testSecret, send. cbn [run final trace result fst snd].
    fold (args_of event).
    destruct (h _ (TestSecretCall (args_of event)) _) as [s2 [e|[]]];
      by repeat split.
Qed.

Lemma doRotate_set_test_witness :
  result (run (store failing_downstream)
            (doRotate no_inherited (request "v2" "testSecret")) example_world)
  = inl (Error "login refused").
Proof.
  refine (proj1 (proj2 (doRotate_set_test (store failing_downstream)
                          no_inherited (request "v2" "testSecret")
                          example_world
                          {| Name := Some "db/app"; RotationEnabled := Some true;
                             VersionIdsToStages :=
                               Some (stage_map (versions db_app)) |}
                          (stage_map (versions db_app)) ["AWSPENDING"]
                          _ _ _ _ _ _) _)); try reflexivity.
  - intros Hin. apply elem_of_cons in Hin as [[=]|Hin]. by apply elem_of_nil in Hin.
  - left.
Defined.

(** ** Further properties of createSecret *)

(** Membership of a log line in an explicit trace: each event of the trace
    is another constructor, or a line that starts differently. *)
Ltac log_cases Hin :=
  repeat (let Heq := fresh "Heq" in
          apply elem_of_cons in Hin as [Heq|Hin];
          [ try discriminate Heq;
            injection Heq as Heq; cbn in Heq; discriminate Heq | ]);
  by apply elem_of_nil in Hin.

(** Whatever the store, when the read of the current value answers with a
    non-empty string and the read of the pending value answers at all,
    [createSecret] succeeds without calling any method of the subclass and
    without writing.  The pending value itself is not looked at: an empty or
    missing string still counts as already created. *)
Theorem createSecret_pending_exists {S} (h : Handler S) args s cur p :
  (h _ (GetSecretValueCommand (arn args) None "AWSCURRENT") s).2 = inr cur ->
  truthy_string (SecretString cur) = true ->
  (h _ (GetSecretValueCommand (arn args) (Some (token args)) "AWSPENDING")
     (h _ (GetSecretValueCommand (arn args) None "AWSCURRENT") s).1).2 = inr p ->
  let o := run h (createSecret args) s in
  result o = inr tt /\
  downstream_calls (trace o) = [] /\
  writes (trace o) = [] /\
  final o =
    (h _ (GetSecretValueCommand (arn args) (Some (token args)) "AWSPENDING")
       (h _ (GetSecretValueCommand (arn args) None "AWSCURRENT") s).1).1.
Proof.
  intros Hcur Htruthy Hpen o. subst o.
  rewrite (createSecret_after_current h args s cur Hcur Htruthy). cbv zeta.
  rewrite Hpen. by repeat split.
Qed.

Lemma createSecret_pending_exists_witness :
  result (run (store example_downstream) (createSecret example_args)
            (world_of db_app_pending_empty)) = inr tt /\
  writes (trace (run (store example_downstream) (createSecret example_args)
                   (world_of db_app_pending_empty))) = [].
Proof.
  pose proof (createSecret_pending_exists (store example_downstream)
                example_args (world_of db_app_pending_empty)
                {| ValueName := Some "db/app"; VersionId := Some "v1";
                   SecretString := Some "old-pw" |}
                {| ValueName := Some "db/app"; VersionId := Some "v2";
                   SecretString := Some EmptyString |}) as H.
  destruct H as (Hres & _ & Hwr & _); try reflexivity.
  split; [exact Hres | exact Hwr].
Defined.

(** When the pending value is not found and [generateSecret] fails, its error
    is the error of [createSecret], and no put has been sent: the store is
    never asked to keep a value that was not generated. *)
Theorem createSecret_generate_rejected {S} (h : Handler S) args s cur e1 e2 :
  let s1 := (h _ (GetSecretValueCommand (arn args) None "AWSCURRENT") s).1 in
  let s2 :=
    (h _ (GetSecretValueCommand (arn args) (Some (token args)) "AWSPENDING")
       s1).1 in
  (h _ (GetSecretValueCommand (arn args) None "AWSCURRENT") s).2 = inr cur ->
  truthy_string (SecretString cur) = true ->
  (h _ (GetSecretValueCommand (arn args) (Some (token args)) "AWSPENDING")
     s1).2 = inl e1 ->
  err_name e1 = ResourceNotFoundException ->
  (h _ (GenerateSecretCall args) s2).2 = inl e2 ->
  let o := run h (createSecret args) s in
  result o = inl e2 /\
  writes (trace o) = [] /\
  downstream_calls (trace o) = [("generateSecret", args)] /\
  final o = (h _ (GenerateSecretCall args) s2).1.
Proof.
  intros s1 s2 Hcur Htruthy Hpen Hname Hgen o. subst s1 s2 o.
  rewrite (createSecret_after_current h args s cur Hcur Htruthy). cbv zeta.
  rewrite Hpen. rewrite (run_catch_not_found h args cur e1 _ Hname). cbv zeta.
  rewrite Hgen. by repeat split.
Qed.

Lemma createSecret_generate_rejected_witness :
  result (run (store failing_downstream) (createSecret example_args)
            example_world) = inl (Error "generator unavailable") /\
  writes (trace (run (store failing_downstream) (createSecret example_args)
                   example_world)) = [].
Proof.
  pose proof (createSecret_generate_rejected (store failing_downstream)
                example_args example_world
                {| ValueName := Some "db/app"; VersionId := Some "v1";
                   SecretString := Some "old-pw" |}
                NotFound (Error "generator unavailable")) as H.
  destruct H as (Hres & Hwr & _); try reflexivity.
  split; [exact Hres | exact Hwr].
Defined.

(** What [createSecret] never does, whatever the store answers: it calls no
    method of the subclass other than [generateSecret], and that one at most
    once; it never sends a stage move; and it sends a put only after a call
    to [generateSecret]. *)
Theorem createSecret_calls {S} (h : Handler S) args s :
  let o := run h (createSecret args) s in
  (downstream_calls (trace o) = [] \/
   downstream_calls (trace o) = [("generateSecret", args)]) /\
  filter (fun wr => is_move wr) (writes (trace o)) = [] /\
  (downstream_calls (trace o) = [] -> writes (trace o) = []).
Proof.
  cbv zeta.
  destruct (h _ (GetSecretValueCommand (arn args) None "AWSCURRENT") s).2
    as [e0|cur] eqn:Hcur.
  { rewrite (createSecret_current_rejected h args s e0 Hcur).
    split_and!; try done. by left. }
  destruct (truthy_string (SecretString cur)) eqn:Htruthy.
  2: { rewrite (createSecret_current_falsy h args s cur Hcur Htruthy).
       split_and!; try done. by left. }
  rewrite (createSecret_after_current h args s cur Hcur Htruthy). cbv zeta.
  destruct (h _ (GetSecretValueCommand (arn args) (Some (token args))
                   "AWSPENDING") _).2 as [e1|p] eqn:Hpen.
  2: { split_and!; try done. by left. }
  destruct (decide (err_name e1 = ResourceNotFoundException)) as [Hname|Hname].
  2: { rewrite (run_catch_other h args cur e1 _ Hname).
       split_and!; try done. by left. }
  rewrite (run_catch_not_found h args cur e1 _ Hname). cbv zeta.
  destruct (h _ (GenerateSecretCall args) _).2 as [e2|v] eqn:Hgen.
  { split_and!; try done. by right. }
  destruct (h _ (PutSecretValueCommand _ _ _ _) _).2 as [e3|[]] eqn:Hput;
    (split_and!; [by right|done|done]).
Qed.

(** The completion marker tells success from failure: whatever the store
    answers, a run of [createSecret] opens with its start line, and logs
    [createSecret: complete] exactly when it succeeds. *)
Theorem createSecret_complete_marker {S} (h : Handler S) args s :
  let o := run h (createSecret args) s in
  head (trace o) = Some (EvLog "createSecret: start") /\
  (EvLog "createSecret: complete" ∈ trace o <-> result o = inr tt).
Proof.
  cbv zeta.
  destruct (h _ (GetSecretValueCommand (arn args) None "AWSCURRENT") s).2
    as [e0|cur] eqn:Hcur.
  { rewrite (createSecret_current_rejected h args s e0 Hcur).
    split; [done|]. split; [|done]. intros Hin. log_cases Hin. }
  destruct (truthy_string (SecretString cur)) eqn:Htruthy.
  2: { rewrite (createSecret_current_falsy h args s cur Hcur Htruthy).
       split; [done|]. split; [|done]. intros Hin. log_cases Hin. }
  rewrite (createSecret_after_current h args s cur Hcur Htruthy). cbv zeta.
  split; [done|].
  destruct (h _ (GetSecretValueCommand (arn args) (Some (token args))
                   "AWSPENDING") _).2 as [e1|p] eqn:Hpen.
  2: { cbn [trace result]. split; [done|]. intros _. do 5 right. left. }
  destruct (decide (err_name e1 = ResourceNotFoundException)) as [Hname|Hname].
  2: { rewrite (run_catch_other h args cur e1 _ Hname). cbn [trace result].
       split; [|done]. intros Hin. log_cases Hin. }
  rewrite (run_catch_not_found h args cur e1 _ Hname). cbv zeta.
  destruct (h _ (GenerateSecretCall args) _).2 as [e2|v] eqn:Hgen.
  { cbn [trace result]. split; [|done]. intros Hin. log_cases Hin. }
  destruct (h _ (PutSecretValueCommand _ _ _ _) _).2 as [e3|[]] eqn:Hput;
    cbn [trace result].
  - split; [|done]. intros Hin. log_cases Hin.
  - split; [done|]. intros _. do 8 right. left.
Qed.

(** ** Further properties of finishSecret *)

(** What [finishSecret] never does, whatever the store answers: it calls no
    method of the subclass, it never sends a put, and it sends at most one
    write, the stage move of the current label onto the version token and
    off another version. *)
Theorem finishSecret_commands {S} (h : Handler S) args s :
  let o := run h (finishSecret args) s in
  downstream_calls (trace o) = [] /\
  (writes (trace o) = [] \/
   exists cv,
     cv <> token args /\ cv <> "None" /\
     writes (trace o) = [ WriteMove (arn args) "AWSCURRENT" (token args) cv ]).
Proof.
  cbv zeta.
  destruct (h _ (DescribeSecretCommand (arn args)) s).2 as [e|md] eqn:Hmd.
  { rewrite (finishSecret_describe_rejected h args s e Hmd). split; [done|by left]. }
  rewrite (finishSecret_after_describe h args s md Hmd). cbv zeta.
  destruct (VersionIdsToStages md) as [m|]; [|split; [done|by left]].
  destruct (finishSecret_loop _ _ _ _) as [version|cv] eqn:Hloop;
    [split; [done|by left]|].
  case_bool_decide as Hnone; [split; [done|by left]|].
  unfold run_move. cbn [trace].
  destruct (h _ (UpdateSecretVersionStageCommand _ _ _ _) _).2 as [e|[]];
    (split; [done|]; right; exists cv; split_and!; try done;
     by destruct (finishSecret_loop_done _ _ _ _ _ Hloop)).
Qed.

(** The completion marker of [finishSecret] tells that the store accepted a
    stage move: it is logged exactly in that case.  A call that finds the
    version token already current succeeds without it. *)
Theorem finishSecret_complete_marker {S} (h : Handler S) args s :
  let o := run h (finishSecret args) s in
  head (trace o) = Some (EvLog "finishSecret: start") /\
  (EvLog "finishSecret: complete" ∈ trace o <-> applied_writes (trace o) <> []) /\
  (EvLog "finishSecret: complete" ∈ trace o -> result o = inr tt).
Proof.
  cbv zeta.
  destruct (h _ (DescribeSecretCommand (arn args)) s).2 as [e|md] eqn:Hmd.
  { rewrite (finishSecret_describe_rejected h args s e Hmd).
    split_and!; [done| |]; [split; [|done]|]; intros Hin; log_cases Hin. }
  rewrite (finishSecret_after_describe h args s md Hmd). cbv zeta.
  split; [done|].
  destruct (VersionIdsToStages md) as [m|].
  2: { cbn [trace result]. split; [split; [|done]|]; intros Hin; log_cases Hin. }
  destruct (finishSecret_loop _ _ _ _) as [version|cv] eqn:Hloop.
  { cbn [trace result]. split; [split; [|done]|]; intros Hin; log_cases Hin. }
  case_bool_decide as Hnone.
  { cbn [trace result]. split; [split; [|done]|]; intros Hin; log_cases Hin. }
  unfold run_move. cbn [trace result].
  destruct (h _ (UpdateSecretVersionStageCommand _ _ _ _) _).2 as [e|[]].
  - split; [split; [|done]|]; intros Hin; log_cases Hin.
  - split; [|done]. split; [done|]. intros _. do 4 right. left.
Qed.

Lemma js_get_js_alter {V} key (f : V -> V) (o : JsObject V) k :
  js_get (js_alter key f o) k =
  (if bool_decide (k = key) then f else id) <$> js_get o k.
Proof.
  case_bool_decide as Hk.
  - subst k. apply js_get_js_alter_eq.
  - rewrite js_get_js_alter_ne by done. by destruct (js_get o k).
Qed.

Lemma holders_NoDup label vs :
  NoDup (Object_keys vs) -> NoDup (holders label vs).
Proof.
  intros Hnd. unfold holders. eapply sublist_NoDup; [exact Hnd|].
  unfold Object_keys. apply fmap_sublist, sublist_filter.
Qed.

Lemma elem_of_holders_get label vs k :
  NoDup (Object_keys vs) ->
  k ∈ holders label vs <-> exists v, js_get vs k = Some v /\ label ∈ stages v.
Proof.
  intros Hnd. rewrite elem_of_holders. split; intros (v & Hv & Hl); exists v.
  - split; [by apply js_get_NoDup|done].
  - split; [by apply js_get_Some_elem|done].
Qed.

Lemma elem_of_remove_label l label v :
  l ∈ stages (remove_label label v) <-> l ∈ stages v /\ l <> label.
Proof.
  unfold remove_label. cbn [stages]. rewrite list_elem_of_filter. tauto.
Qed.

(** The run of [finishSecret] on a store whose first version staged current
    is another version than the token, not named [None]. *)
Lemma finishSecret_store_move d w args sec cv rest :
  secrets w !! arn args = Some sec ->
  NoDup (Object_keys (versions sec)) ->
  holders "AWSCURRENT" (versions sec) = cv :: rest ->
  cv <> token args ->
  cv <> "None" ->
  token args ∈ Object_keys (versions sec) ->
  let o := run (store d) (finishSecret args) w in
  result o = inr tt /\
  writes (trace o) = [ WriteMove (arn args) "AWSCURRENT" (token args) cv ] /\
  final o =
    set_secrets w
      (<[arn args :=
           set_versions sec
             (js_alter (token args) (add_label "AWSCURRENT")
                (js_alter cv (remove_label "AWSCURRENT") (versions sec)))]>
         (secrets w)).
Proof.
  intros Hsec Hnd Hh Hne Hnone Htok. cbv zeta.
  rewrite (finishSecret_after_describe (store d) args w
             {| Name := Some (secret_name sec);
                RotationEnabled := rotation_enabled sec;
                VersionIdsToStages := Some (stage_map (versions sec)) |});
    [|by cbn; unfold describeSecret; rewrite Hsec].
  cbv zeta. cbn [VersionIdsToStages store fst].
  rewrite (finishSecret_loop_holders _ _ _ Hnd), Hh.
  rewrite !bool_decide_eq_false_2 by done.
  unfold run_move. cbn [store fst snd].
  assert (Hmove : moveStageVersion (secrets w) (arn args) "AWSCURRENT"
                    (token args) cv =
                  (<[arn args :=
                       set_versions sec
                         (js_alter (token args) (add_label "AWSCURRENT")
                            (js_alter cv (remove_label "AWSCURRENT")
                               (versions sec)))]> (secrets w), inr tt)).
  { unfold moveStageVersion. rewrite Hsec.
    destruct (js_get_of_key _ _ Htok) as [vt ->].
    assert (cv ∈ holders "AWSCURRENT" (versions sec)) as Hcv
      by (rewrite Hh; left).
    apply (elem_of_holders_get _ _ _ Hnd) in Hcv as (vf & -> & Hl).
    by rewrite (proj2 (includes_true _ _) Hl). }
  rewrite Hmove. by repeat split.
Qed.

(** Only the first version staged current is demoted.  On a store that lists
    several versions as current, [finishSecret] moves the label off the first
    one in enumeration order and onto the version token; every other version
    that carried the label still carries it afterwards. *)
Theorem finishSecret_first_match d w args sec cv rest :
  secrets w !! arn args = Some sec ->
  NoDup (Object_keys (versions sec)) ->
  holders "AWSCURRENT" (versions sec) = cv :: rest ->
  cv <> token args ->
  cv <> "None" ->
  token args ∈ Object_keys (versions sec) ->
  let o := run (store d) (finishSecret args) w in
  result o = inr tt /\
  writes (trace o) = [ WriteMove (arn args) "AWSCURRENT" (token args) cv ] /\
  exists sec',
    secrets (final o) !! arn args = Some sec' /\
    forall k, k ∈ holders "AWSCURRENT" (versions sec') <->
              k = token args \/ k ∈ rest.
Proof.
  intros Hsec Hnd Hh Hne Hnone Htok o. subst o.
  destruct (finishSecret_store_move d w args sec cv rest Hsec Hnd Hh Hne Hnone
              Htok) as (Hres & Hwr & Hfin).
  split; [done|]. split; [done|]. rewrite Hfin. cbn [set_secrets secrets].
  rewrite lookup_insert_eq. eexists. split; [done|].
  cbn [set_versions versions]. intros k.
  assert (Hcv : cv ∉ rest).
  { pose proof (holders_NoDup "AWSCURRENT" _ Hnd) as Hnd'.
    rewrite Hh in Hnd'. by apply NoDup_cons in Hnd' as [? _]. }
  rewrite elem_of_holders_get by (by rewrite !Object_keys_js_alter).
  rewrite !js_get_js_alter. split.
  - intros (v' & Hget & Hl).
    destruct (decide (k = token args)) as [->|Hk]; [by left|]. right.
    rewrite (bool_decide_eq_false_2 (k = token args)) in Hget by done.
    destruct (js_get (versions sec) k) as [v0|] eqn:Hv0; [|done].
    cbn in Hget. case_bool_decide as Hkcv.
    + injection Hget as <-. apply elem_of_remove_label in Hl as [_ ?]. done.
    + injection Hget as <-.
      assert (k ∈ holders "AWSCURRENT" (versions sec)) as Hin
        by (apply elem_of_holders_get; eauto).
      rewrite Hh in Hin. by apply elem_of_cons in Hin as [?|?].
  - intros [->|Hin].
    + destruct (js_get_of_key _ _ Htok) as [vt Hvt]. rewrite Hvt.
      rewrite (bool_decide_eq_true_2 (token args = token args)) by done.
      eexists. split; [done|]. apply elem_of_add_label. by right.
    + assert (k ∈ holders "AWSCURRENT" (versions sec)) as Hin'
        by (rewrite Hh; by right).
      apply (elem_of_holders_get _ _ _ Hnd) in Hin' as (v0 & Hv0 & Hl).
      rewrite Hv0. rewrite (bool_decide_eq_false_2 (k = cv)) by (by intros ->).
      case_bool_decide; eexists; (split; [done|]); cbn [id]; [|done].
      apply elem_of_add_label. by left.
Qed.

(** The version name [None] is the loop's own marker for "nothing found": on
    a store whose first version staged current is named [None],
    [finishSecret] for another token fails with [NoCurrentVersionFound]
    although a version is current, and sends nothing to the store beyond the
    metadata read. *)
Theorem finishSecret_none_sentinel d w args sec rest :
  secrets w !! arn args = Some sec ->
  NoDup (Object_keys (versions sec)) ->
  holders "AWSCURRENT" (versions sec) = "None" :: rest ->
  token args <> "None" ->
  let o := run (store d) (finishSecret args) w in
  result o = inl NoCurrentVersionFound /\
  writes (trace o) = [] /\
  final o = w.
Proof.
  intros Hsec Hnd Hh Hne. cbv zeta.
  rewrite (finishSecret_after_describe (store d) args w
             {| Name := Some (secret_name sec);
                RotationEnabled := rotation_enabled sec;
                VersionIdsToStages := Some (stage_map (versions sec)) |});
    [|by cbn; unfold describeSecret; rewrite Hsec].
  cbv zeta. cbn [VersionIdsToStages store fst].
  rewrite (finishSecret_loop_holders _ _ _ Hnd), Hh.
  rewrite bool_decide_eq_false_2 by done.
  rewrite bool_decide_eq_true_2 by done. by repeat split.
Qed.

Lemma finishSecret_first_match_witness :
  result (run (store example_downstream) (finishSecret example_args)
            (world_of db_app_two_current)) = inr tt /\
  exists sec',
    secrets (final (run (store example_downstream) (finishSecret example_args)
                      (world_of db_app_two_current))) !! "arn:db/app"
    = Some sec' /\
    "v1" ∈ holders "AWSCURRENT" (versions sec').
Proof.
  destruct (finishSecret_first_match example_downstream
              (world_of db_app_two_current) example_args db_app_two_current
              "v0" ["v1"]) as (Hres & _ & sec' & Hsec' & Hh).
  - reflexivity.
  - apply (bool_decide_unpack _). vm_compute. exact I.
  - vm_compute. reflexivity.
  - intros [=].
  - intros [=].
  - apply (bool_decide_unpack _). vm_compute. exact I.
  - split; [exact Hres|]. exists sec'. split; [exact Hsec'|].
    apply Hh. right. left.
Defined.

Lemma finishSecret_none_sentinel_witness :
  result (run (store example_downstream) (finishSecret example_args)
            (world_of db_app_none_current)) = inl NoCurrentVersionFound.
Proof.
  refine (proj1 (finishSecret_none_sentinel example_downstream
                   (world_of db_app_none_current) example_args
                   db_app_none_current [] _ _ _ _)).
  - reflexivity.
  - apply (bool_decide_unpack _). vm_compute. exact I.
  - vm_compute. reflexivity.
  - intros [=].
Defined.

(** [finishSecret] keeps the store's invariant: after any run on a
    well-formed store, version ids are still distinct and at most one version
    of each secret is staged current. *)
Theorem finishSecret_keeps_wf d w args :
  wf_store (secrets w) ->
  wf_store (secrets (final (run (store d) (finishSecret args) w))).
Proof.
  intros Hwf.
  destruct (finishSecret_store d w args Hwf)
    as [(_ & _ & _ & _ & _ & Hfin)
       |[(_ & _ & _ & Hfin & _)
        |(sec & cv & Hsec & _ & _ & _ & _ & _ & Hfin & Hkeys & Hh')]].
  1,2: by rewrite Hfin.
  cbv zeta in Hfin, Hkeys, Hh'. rewrite Hfin. cbn [set_secrets secrets].
  apply wf_store_insert; [done|]. split; cbn [set_versions versions].
  - rewrite Hkeys. apply (Hwf _ _ Hsec).
  - rewrite Hh'. cbn [length]. lia.
Qed.

Lemma finishSecret_keeps_wf_witness :
  wf_store (secrets (final (run (store example_downstream)
                              (finishSecret example_args)
                              (world_of db_app_tested)))).
Proof.
  apply finishSecret_keeps_wf.
  apply wf_store_singleton. apply (bool_decide_unpack _). vm_compute. exact I.
Defined.

(** ** The conditional put and the store's invariant *)

Lemma holders_js_alter_same label t (f : Version -> Version) vs :
  (forall v, label ∈ stages (f v) <-> label ∈ stages v) ->
  holders label (js_alter t f vs) = holders label vs.
Proof.
  intros Hf. induction vs as [|[k v] vs IH]; [done|].
  rewrite js_alter_cons. case_bool_decide; rewrite !holders_cons, IH; [|done].
  unfold includes. by rewrite (bool_decide_ext _ _ (Hf v)).
Qed.

Lemma holders_app label vs1 vs2 :
  holders label (vs1 ++ vs2) = holders label vs1 ++ holders label vs2.
Proof. unfold holders. by rewrite filter_app, fmap_app. Qed.

Lemma js_get_None_key {V} (o : JsObject V) k :
  js_get o k = None -> k ∉ Object_keys o.
Proof.
  intros Hnone Hin. destruct (js_get_of_key o k Hin) as [v Hv]. congruence.
Qed.

(** A put that does not ask for the current label keeps a well-formed store
    well-formed, accepted or not. *)
Lemma putSecretValue_keeps_wf st a t value labels :
  "AWSCURRENT" ∉ labels ->
  wf_store st ->
  wf_store (putSecretValue st a t value labels).1.
Proof.
  intros Hlabels Hwf. unfold putSecretValue.
  destruct (st !! a) as [sec|] eqn:Hsec; [|done].
  destruct (Hwf _ _ Hsec) as [Hnd Hlen].
  destruct (js_get (versions sec) t) as [v0|] eqn:Ht.
  - destruct (data v0); [done|]. cbn [fst].
    apply wf_store_insert; [done|]. split; cbn [set_versions versions].
    + by rewrite Object_keys_js_alter.
    + rewrite holders_js_alter_same; [done|].
      intros v. cbn [stages]. rewrite elem_of_add_labels. tauto.
  - cbn [fst]. apply wf_store_insert; [done|]. split; cbn [set_versions versions].
    + unfold Object_keys. rewrite fmap_app. apply NoDup_app. split_and!.
      * done.
      * intros k Hk Hk'. apply list_elem_of_singleton in Hk'. subst k.
        by apply (js_get_None_key _ _ Ht).
      * apply NoDup_singleton.
    + rewrite holders_app, holders_cons. cbn [stages].
      rewrite (proj2 (includes_false _ _)).
      * by rewrite app_nil_r.
      * rewrite elem_of_add_labels. cbn [stages].
        intros [Hin|Hin]; [by apply elem_of_nil in Hin|done].
Qed.

(** The secrets a run of [createSecret] leaves: those it found, or those the
    put of a generated value made of them. *)
Lemma createSecret_final_secrets d w args :
  let o := run (store d) (createSecret args) w in
  secrets (final o) = secrets w \/
  exists new_secret,
    secrets (final o) =
    (putSecretValue (secrets w) (arn args) (token args) new_secret
       ["AWSPENDING"]).1.
Proof.
  cbv zeta.
  destruct (getSecretValue (secrets w) (arn args) None "AWSCURRENT")
    as [e0|cur] eqn:Hcur.
  { rewrite (createSecret_current_rejected (store d) args w e0 Hcur). by left. }
  destruct (truthy_string (SecretString cur)) eqn:Htruthy.
  2: { rewrite (createSecret_current_falsy (store d) args w cur Hcur Htruthy).
       by left. }
  rewrite (createSecret_after_current (store d) args w cur Hcur Htruthy).
  cbv zeta. cbn [store fst snd].
  destruct (getSecretValue (secrets w) (arn args) (Some (token args))
              "AWSPENDING") as [e1|p] eqn:Hpen; [|by left].
  apply getSecretValue_error in Hpen as Hnf. subst e1.
  rewrite (run_catch_not_found (store d) args cur NotFound w eq_refl).
  cbv zeta. cbn [store fst snd secrets generate_count set_secrets].
  destruct (generated d (generate_count w)) as [e2|v] eqn:Hgen; [by left|].
  right. by exists v.
Qed.

(** [createSecret] keeps the store's invariant: after any run on a
    well-formed store, version ids are still distinct and at most one version
    of each secret is staged current. *)
Theorem createSecret_keeps_wf d w args :
  wf_store (secrets w) ->
  wf_store (secrets (final (run (store d) (createSecret args) w))).
Proof.
  intros Hwf.
  destruct (createSecret_final_secrets d w args) as [-> | [v ->]]; [done|].
  apply putSecretValue_keeps_wf; [|done].
  intros Hin. apply list_elem_of_singleton in Hin. done.
Qed.

Lemma createSecret_keeps_wf_witness :
  wf_store (secrets (final (run (store example_downstream)
                              (createSecret example_args) example_world))).
Proof.
  apply createSecret_keeps_wf.
  apply wf_store_singleton. apply (bool_decide_unpack _). vm_compute. exact I.
Defined.

(** ** A whole rotation through the dispatcher *)

Lemma store_describe d w a sec :
  secrets w !! a = Some sec ->
  store d _ (DescribeSecretCommand a) w =
  (w, inr {| Name := Some (secret_name sec);
             RotationEnabled := rotation_enabled sec;
             VersionIdsToStages := Some (stage_map (versions sec)) |}).
Proof. intros Hsec. cbn. unfold describeSecret. by rewrite Hsec. Qed.

(** A delivery that passes validation on the reference store: the metadata
    read, then the member the step names. *)
Lemma deliver_validated d inherited a tok step w sec vt :
  secrets w !! a = Some sec ->
  rotation_enabled sec = Some true ->
  js_get (versions sec) tok = Some vt ->
  "AWSCURRENT" ∉ stages vt ->
  "AWSPENDING" ∈ stages vt ->
  deliver d inherited a tok step w =
  prepend_event
    (EvCall (DescribeSecretCommand a)
       (inr {| Name := Some (secret_name sec);
               RotationEnabled := rotation_enabled sec;
               VersionIdsToStages := Some (stage_map (versions sec)) |}))
    (run (store d)
       match this_member inherited step with
       | Some method => method {| arn := a; token := tok |}
       | None => Throw (UnknownStep step)
       end w).
Proof.
  intros Hsec Hen Hget Hcur Hpen. unfold deliver.
  assert (Hmd := f_equal snd (store_describe d w a sec Hsec)).
  assert (Hs1 := f_equal fst (store_describe d w a sec Hsec)).
  cbn [fst snd] in Hmd, Hs1.
  assert (Hget' : js_get (stage_map (versions sec)) tok = Some (stages vt))
    by (by rewrite js_get_stage_map, Hget).
  rewrite (doRotate_after_describe (store d) inherited
             {| SecretId := a; ClientRequestToken := tok; Step := step |}
             w _ Hmd).
  cbv zeta.
  cbn [SecretId ClientRequestToken Step RotationEnabled VersionIdsToStages].
  rewrite Hs1, Hen. cbn [truthy_bool negb default from_option id].
  rewrite (js_in_get _ _ _ Hget'). cbn [negb].
  rewrite (proj2 (includes_true _ _) (js_get_Some_key _ _ _ Hget')).
  rewrite Hget'. cbn [negb default from_option id].
  rewrite (proj2 (includes_false _ _) Hcur), (proj2 (includes_true _ _) Hpen).
  reflexivity.
Qed.

(** The run of [createSecret] that creates: the current version holds a
    non-empty string, the version token has no value yet, and the generator
    answers. *)
Lemma createSecret_store_create d w args sec vt k0 v0 x new_secret :
  secrets w !! arn args = Some sec ->
  first_staged "AWSCURRENT" (versions sec) = Some (k0, v0) ->
  data v0 = Some (StringData x) ->
  x <> EmptyString ->
  js_get (versions sec) (token args) = Some vt ->
  data vt = None ->
  generated d (generate_count w) = inr new_secret ->
  let o := run (store d) (createSecret args) w in
  result o = inr tt /\
  final o =
    {| secrets :=
         <[arn args :=
             set_versions sec
               (js_alter (token args) (filled new_secret) (versions sec))]>
           (secrets w);
       generate_count := S (generate_count w) |}.
Proof.
  intros Hsec Hfs Hd0 Hx Hget Hdata Hgen. cbv zeta.
  assert (Hcur : getSecretValue (secrets w) (arn args) None "AWSCURRENT" =
                 inr {| ValueName := Some (secret_name sec);
                        VersionId := Some k0; SecretString := Some x |}).
  { unfold getSecretValue. rewrite Hsec. cbn [select_version].
    by rewrite Hfs, Hd0. }
  assert (Hpen : getSecretValue (secrets w) (arn args) (Some (token args))
                   "AWSPENDING" = inl NotFound).
  { unfold getSecretValue. rewrite Hsec. cbn [select_version]. rewrite Hget.
    destruct (includes (stages vt) "AWSPENDING"); [by rewrite Hdata|done]. }
  rewrite (createSecret_after_current (store d) args w _ Hcur).
  2: { cbn [SecretString truthy_string]. by rewrite bool_decide_eq_false_2. }
  cbv zeta. cbn [store fst snd]. rewrite Hpen.
  rewrite (run_catch_not_found (store d) args _ NotFound w eq_refl).
  cbv zeta. cbn [store fst snd secrets generate_count set_secrets].
  rewrite Hgen. unfold putSecretValue. rewrite Hsec, Hget, Hdata.
  by split.
Qed.

(** A whole rotation.  On a well-formed store with rotation enabled, where
    the version token is staged pending without a value and the current
    version (not named [None]) holds a non-empty string, the four steps
    delivered in order all succeed when the downstream service does.  At the
    end the version token is the one current version, it holds the generated
    value and is still staged pending, and the version that was current has
    lost the label and kept its value. *)
Theorem rotation_cycle d inherited w a tok sec vt k0 v0 x new_secret :
  wf_store (secrets w) ->
  secrets w !! a = Some sec ->
  rotation_enabled sec = Some true ->
  js_get (versions sec) tok = Some vt ->
  "AWSPENDING" ∈ stages vt ->
  data vt = None ->
  first_staged "AWSCURRENT" (versions sec) = Some (k0, v0) ->
  data v0 = Some (StringData x) ->
  x <> EmptyString ->
  k0 <> "None" ->
  generated d (generate_count w) = inr new_secret ->
  set_outcome d = inr tt ->
  test_outcome d = inr tt ->
  let o1 := deliver d inherited a tok "createSecret" w in
  let o2 := deliver d inherited a tok "setSecret" (final o1) in
  let o3 := deliver d inherited a tok "testSecret" (final o2) in
  let o4 := deliver d inherited a tok "finishSecret" (final o3) in
  result o1 = inr tt /\ result o2 = inr tt /\
  result o3 = inr tt /\ result o4 = inr tt /\
  exists sec',
    secrets (final o4) !! a = Some sec' /\
    holders "AWSCURRENT" (versions sec') = [tok] /\
    (exists vt',
       js_get (versions sec') tok = Some vt' /\
       data vt' = Some (StringData new_secret) /\
       "AWSPENDING" ∈ stages vt') /\
    (exists v0',
       js_get (versions sec') k0 = Some v0' /\
       data v0' = data v0 /\
       "AWSCURRENT" ∉ stages v0').
Proof.
  intros Hwf Hsec Hen Hget Hpen Hdata Hfs Hd0 Hx Hnone Hgen Hset Htest.
  pose proof (Hwf _ _ Hsec) as Hsecwf. destruct Hsecwf as [Hnd Hlen].
  destruct (first_staged_elem _ _ _ _ Hfs) as [Hin0 Hl0].
  pose proof (js_get_NoDup _ _ _ Hnd Hin0) as Hget0.
  assert (Hne : k0 <> tok) by (intros ->; congruence).
  assert (Hcur : "AWSCURRENT" ∉ stages vt).
  { intros Hl. apply js_get_Some_elem in Hget.
    by destruct (wf_secret_current_unique sec k0 v0 tok vt (conj Hnd Hlen)). }
  assert (Hh : holders "AWSCURRENT" (versions sec) = [k0]).
  { assert (k0 ∈ holders "AWSCURRENT" (versions sec)) as Hk0
      by (apply elem_of_holders; eauto).
    destruct (wf_secret_holders sec (conj Hnd Hlen)) as [Hh|[k Hh]];
      rewrite Hh in Hk0.
    - by apply elem_of_nil in Hk0.
    - apply list_elem_of_singleton in Hk0. by subst. }
  (* createSecret *)
  intros o1.
  assert (Ho1 : result o1 = inr tt /\
                final o1 =
                  {| secrets :=
                       <[a := set_versions sec
                                (js_alter tok (filled new_secret) (versions sec))]>
                         (secrets w);
                     generate_count := S (generate_count w) |}).
  { subst o1. rewrite (deliver_validated d inherited a tok _ w sec vt)
      by done.
    change (this_member inherited "createSecret") with (Some createSecret).
    cbn [prepend_event result final].
    by apply (createSecret_store_create d w {| arn := a; token := tok |}
                sec vt k0 v0 x new_secret). }
  destruct Ho1 as [Hr1 Hf1]. rewrite Hf1. clearbody o1.
  set (vs1 := js_alter tok (filled new_secret) (versions sec)).
  set (sec1 := set_versions sec vs1).
  set (w1 := {| secrets := <[a := sec1]> (secrets w);
                generate_count := S (generate_count w) |}).
  assert (Hsec1 : secrets w1 !! a = Some sec1) by apply lookup_insert_eq.
  assert (Hget1 : js_get (versions sec1) tok = Some (filled new_secret vt)).
  { cbn [sec1 set_versions versions]. unfold vs1.
    by rewrite js_get_js_alter_eq, Hget. }
  assert (Hcur1 : "AWSCURRENT" ∉ stages (filled new_secret vt)).
  { cbn [filled stages]. rewrite elem_of_add_labels.
    intros [?|Hin]; [done|]. by apply list_elem_of_singleton in Hin. }
  assert (Hpen1 : "AWSPENDING" ∈ stages (filled new_secret vt)).
  { cbn [filled stages]. rewrite elem_of_add_labels. by left. }
  (* setSecret *)
  intros o2.
  assert (Ho2 : result o2 = inr tt /\ final o2 = w1).
  { subst o2. rewrite (deliver_validated d inherited a tok _ w1 sec1 _ Hsec1 Hen
                         Hget1 Hcur1 Hpen1).
    change (this_member inherited "setSecret") with (Some setSecret).
    unfold setSecret, send.
    cbn [prepend_event run store fst snd result final]. by rewrite Hset. }
  destruct Ho2 as [Hr2 Hf2]. rewrite Hf2. clearbody o2.
  (* testSecret *)
  intros o3.
  assert (Ho3 : result o3 = inr tt /\ final o3 = w1).
  { subst o3. rewrite (deliver_validated d inherited a tok _ w1 sec1 _ Hsec1 Hen
                         Hget1 Hcur1 Hpen1).
    change (this_member inherited "testSecret") with (Some testSecret).
    unfold testSecret, send.
    cbn [prepend_event run store fst snd result final]. by rewrite Htest. }
  destruct Ho3 as [Hr3 Hf3]. rewrite Hf3. clearbody o3.
  (* finishSecret *)
  intros o4.
  assert (Hnd1 : NoDup (Object_keys (versions sec1)))
    by (cbn [sec1 set_versions versions]; unfold vs1;
        by rewrite Object_keys_js_alter).
  assert (Hh1 : holders "AWSCURRENT" (versions sec1) = [k0]).
  { cbn [sec1 set_versions versions]. unfold vs1.
    rewrite holders_js_alter_same; [done|].
    intros v. cbn [filled stages]. rewrite elem_of_add_labels.
    split; [|by left]. intros [?|Hin]; [done|].
    by apply list_elem_of_singleton in Hin. }
  assert (Htok1 : tok ∈ Object_keys (versions sec1))
    by (by eapply js_get_Some_key).
  destruct (finishSecret_store_move d w1 {| arn := a; token := tok |} sec1 k0 []
              Hsec1 Hnd1 Hh1 Hne Hnone Htok1) as (Hr4 & _ & Hf4).
  assert (Ho4 : result o4 = inr tt /\
                final o4 =
                  set_secrets w1
                    (<[a := set_versions sec1
                              (js_alter tok (add_label "AWSCURRENT")
                                 (js_alter k0 (remove_label "AWSCURRENT")
                                    (versions sec1)))]> (secrets w1))).
  { subst o4. rewrite (deliver_validated d inherited a tok _ w1 sec1 _ Hsec1 Hen
                         Hget1 Hcur1 Hpen1).
    change (this_member inherited "finishSecret") with (Some finishSecret).
    cbn [prepend_event result final]. by split. }
  destruct Ho4 as [Hr4' Hf4']. rewrite Hf4'. clearbody o4.
  split_and!; try done.
  cbn [set_secrets secrets]. rewrite lookup_insert_eq. eexists.
  split; [done|]. cbn [set_versions versions]. split_and!.
  - rewrite holders_move; [|by apply holders_singleton_only|done].
    by apply filter_eq_NoDup.
  - rewrite !js_get_js_alter.
    rewrite (bool_decide_eq_true_2 (tok = tok)) by done.
    rewrite (bool_decide_eq_false_2 (tok = k0)) by done.
    change (versions sec1) with vs1. unfold vs1.
    rewrite js_get_js_alter_eq, Hget. eexists. split; [done|].
    split; [done|]. apply elem_of_add_label. by left.
  - rewrite !js_get_js_alter.
    rewrite (bool_decide_eq_false_2 (k0 = tok)) by done.
    rewrite (bool_decide_eq_true_2 (k0 = k0)) by done.
    change (versions sec1) with vs1. unfold vs1.
    rewrite js_get_js_alter_ne, Hget0 by done. eexists. split; [done|].
    cbn [id]. split; [done|]. rewrite elem_of_remove_label. tauto.
Qed.

Lemma rotation_cycle_witness :
  exists sec',
    secrets
      (final (deliver example_downstream no_inherited "arn:db/app" "v2"
                "finishSecret"
                (final (deliver example_downstream no_inherited "arn:db/app"
                          "v2" "testSecret"
                          (final (deliver example_downstream no_inherited
                                    "arn:db/app" "v2" "setSecret"
                                    (final (deliver example_downstream
                                              no_inherited "arn:db/app" "v2"
                                              "createSecret"
                                              example_world)))))))) !!
      "arn:db/app" = Some sec' /\
    holders "AWSCURRENT" (versions sec') = ["v2"].
Proof.
  destruct (rotation_cycle example_downstream no_inherited example_world
              "arn:db/app" "v2" db_app
              {| stages := ["AWSPENDING"]; data := None |}
              "v1" {| stages := ["AWSCURRENT"];
                      data := Some (StringData "old-pw") |}
              "old-pw" "new-pw")
    as (_ & _ & _ & _ & sec' & Hsec' & Hh & _); try reflexivity.
  - apply wf_store_singleton. apply (bool_decide_unpack _). vm_compute. exact I.
  - left.
  - intros [=].
  - intros [=].
  - exists sec'. split; [exact Hsec' | exact Hh].
Defined.

(** ** Failures leave the store alone *)

(** Whatever makes [finishSecret] fail on a well-formed store (the secret is
    unknown, no version is current, the store rejects the move), the world is
    exactly as it was: no label has been lost or attached. *)
Theorem finishSecret_failure_leaves_store d w args e :
  wf_store (secrets w) ->
  result (run (store d) (finishSecret args) w) = inl e ->
  final (run (store d) (finishSecret args) w) = w /\
  applied_writes (trace (run (store d) (finishSecret args) w)) = [].
Proof.
  intros Hwf Hres.
  destruct (finishSecret_store d w args Hwf)
    as [(_ & _ & _ & Hok & _)
       |[(_ & _ & Happ & Hfin & _)
        |(_ & _ & _ & _ & _ & Hok & _)]]; [congruence|done|congruence].
Qed.

Lemma finishSecret_failure_leaves_store_witness :
  final (run (store example_downstream) (finishSecret unknown_token_args)
           (world_of db_app_tested)) = world_of db_app_tested.
Proof.
  refine (proj1 (finishSecret_failure_leaves_store example_downstream
                   (world_of db_app_tested) unknown_token_args NotFound _ _)).
  - apply wf_store_singleton. apply (bool_decide_unpack _). vm_compute. exact I.
  - vm_compute. reflexivity.
Defined.

(** Whatever makes [createSecret] fail on a well-formed store (no current
    value, a failing generator, a rejected put), the secrets of the store are
    exactly as they were. *)
Theorem createSecret_failure_leaves_store d w args e :
  wf_store (secrets w) ->
  result (run (store d) (createSecret args) w) = inl e ->
  secrets (final (run (store d) (createSecret args) w)) = secrets w /\
  applied_writes (trace (run (store d) (createSecret args) w)) = [].
Proof.
  intros Hwf Hres.
  destruct (createSecret_store d w args Hwf)
    as [(Hsame & Happ & _)|(? & ? & ? & ? & _ & _ & _ & _ & Hok & _)];
    [done|congruence].
Qed.

Lemma createSecret_failure_leaves_store_witness :
  secrets (final (run (store failing_downstream) (createSecret example_args)
                    example_world)) = secrets example_world.
Proof.
  refine (proj1 (createSecret_failure_leaves_store failing_downstream
                   example_world example_args
                   (Error "generator unavailable") _ _)).
  - apply wf_store_singleton. apply (bool_decide_unpack _). vm_compute. exact I.
  - vm_compute. reflexivity.
Defined.

(** The step is looked up among all members of the object, not among the
    four phases: a request that passes validation and whose step is
    [generateSecret] has the generator run.  The dispatcher then answers with
    success (dropping the generated value) or with the generator's error, and
    nothing is written to the store. *)
Theorem doRotate_generateSecret_member {S} (h : Handler S) inherited event s md
    versions labels :
  (h _ (DescribeSecretCommand (SecretId event)) s).2 = inr md ->
  RotationEnabled md = Some true ->
  VersionIdsToStages md = Some versions ->
  js_get versions (ClientRequestToken event) = Some labels ->
  "AWSCURRENT" ∉ labels ->
  "AWSPENDING" ∈ labels ->
  Step event = "generateSecret" ->
  let o := run h (doRotate inherited event) s in
  let s1 := (h _ (DescribeSecretCommand (SecretId event)) s).1 in
  let r := h _ (GenerateSecretCall (args_of event)) s1 in
  result o = match r.2 with inl e => inl e | inr _ => inr tt end /\
  downstream_calls (trace o) = [("generateSecret", args_of event)] /\
  writes (trace o) = [] /\
  final o = r.1.
Proof.
  intros Hmd Hen Hvs Hget Hcur Hpen Hstep o s1 r. subst o s1 r.
  validate Hmd Hen Hvs Hget.
  rewrite (proj2 (includes_false _ _) Hcur), (proj2 (includes_true _ _) Hpen).
  cbn [negb]. rewrite Hstep.
  change (this_member inherited "generateSecret")
    with (Some (fun args => generateSecret args ;;; Return tt)).
  unfold generateSecret, send. cbn [bind run final trace result fst snd].
  fold (args_of event).
  destruct (h _ (GenerateSecretCall (args_of event)) _) as [s2 [e|v]];
    by repeat split.
Qed.

Lemma doRotate_generateSecret_member_witness :
  result (run (store example_downstream)
            (doRotate no_inherited (request "v2" "generateSecret"))
            example_world) = inr tt /\
  writes (trace (run (store example_downstream)
                   (doRotate no_inherited (request "v2" "generateSecret"))
                   example_world)) = [].
Proof.
  pose proof (doRotate_generateSecret_member (store example_downstream)
                no_inherited (request "v2" "generateSecret") example_world
                {| Name := Some "db/app"; RotationEnabled := Some true;
                   VersionIdsToStages := Some (stage_map (versions db_app)) |}
                (stage_map (versions db_app)) ["AWSPENDING"]) as H.
  destruct H as (Hres & _ & Hwr & _); try reflexivity.
  - intros Hin. apply elem_of_cons in Hin as [[=]|Hin]. by apply elem_of_nil in Hin.
  - left.
  - split; [exact Hres | exact Hwr].
Defined.

(** ** The dispatcher called through itself *)

(** The dispatcher is itself a member of the object.  A validated request
    whose step is [doRotate] re-enters it with the argument object of a
    phase, which carries no secret id, token or step: whatever the store
    answers to the describe without a secret id, the call fails, and with it
    the outer dispatcher, without any write or subclass call. *)
Theorem doRotate_reentered_fails {S} (h : Handler S) inherited event s md
    versions labels :
  (h _ (DescribeSecretCommand (SecretId event)) s).2 = inr md ->
  RotationEnabled md = Some true ->
  VersionIdsToStages md = Some versions ->
  js_get versions (ClientRequestToken event) = Some labels ->
  "AWSCURRENT" ∉ labels ->
  "AWSPENDING" ∈ labels ->
  Step event = "doRotate" ->
  let o := run h (doRotate inherited event) s in
  let s1 := (h _ (DescribeSecretCommand (SecretId event)) s).1 in
  let r := h _ DescribeSecretCommand_undefined s1 in
  (exists e, result o = inl e) /\
  (forall e, r.2 = inl e -> result o = inl e) /\
  trace o = [ EvCall (DescribeSecretCommand (SecretId event)) (inr md);
              EvCall DescribeSecretCommand_undefined r.2 ] /\
  writes (trace o) = [] /\
  downstream_calls (trace o) = [] /\
  final o = r.1.
Proof.
  intros Hmd Hen Hvs Hget Hcur Hpen Hstep o s1 r. subst o s1 r.
  validate Hmd Hen Hvs Hget.
  rewrite (proj2 (includes_false _ _) Hcur), (proj2 (includes_true _ _) Hpen).
  cbn [negb]. rewrite Hstep.
  change (this_member inherited "doRotate")
    with (Some (fun _ : StepCommandArgs => doRotate_reentered)).
  unfold doRotate_reentered, send. cbn [bind run final trace result fst snd].
  destruct (h _ DescribeSecretCommand_undefined _) as [s2 [e|md2]];
    cbn [fst snd bind run final trace result].
  - split_and!; try done; [by exists e | by intros e0 [= ->]].
  - destruct (truthy_bool (RotationEnabled md2)); cbn [negb];
      [destruct (js_in _ _); cbn [negb]|];
      (split_and!; [by eexists|done..]).
Qed.

Lemma doRotate_reentered_fails_witness :
  result (run (store example_downstream)
            (doRotate no_inherited (request "v2" "doRotate")) example_world)
  = inl NotFound.
Proof.
  refine (proj1 (proj2 (doRotate_reentered_fails (store example_downstream)
                          no_inherited (request "v2" "doRotate") example_world
                          {| Name := Some "db/app"; RotationEnabled := Some true;
                             VersionIdsToStages :=
                               Some (stage_map (versions db_app)) |}
                          (stage_map (versions db_app)) ["AWSPENDING"]
                          _ _ _ _ _ _ _)) NotFound _); try reflexivity.
  - intros Hin. apply elem_of_cons in Hin as [[=]|Hin]. by apply elem_of_nil in Hin.
  - left.
Defined.
